(** * buildkite-agent [pipeline upload]: a shallow embedding of
      clicommand/pipeline_upload.go and the properties of its workflow.

    The command's [Action] is one Go closure that talks to the file
    system, the process environment, git, the pipeline parser, the
    redaction helper and the Buildkite API. The embedding keeps that
    shape: the collaborators are the fields of a [World] record, the
    closure is a computation in a small log-and-exit monad, and every
    call that leaves the process is recorded as an [Event], so that
    statements such as "no upload is attempted" or "the UUID is generated
    before the loop" are statements about the recorded trace. *)

From Stdlib Require Import String Ascii ZArith Lia.
From stdpp Require Import base option list strings gmap.

Local Open Scope string_scope.

(** ** Go standard library functions used by the command

    Byte strings are [string]; Go's [[]byte] and [string] are not
    distinguished. *)

Module strings.

(** [strings.HasPrefix]. *)
Fixpoint HasPrefix (s prefix : string) {struct prefix} : bool :=
  match prefix, s with
  | EmptyString, _ => true
  | String p prefix', String c s' => if Ascii.eqb p c then HasPrefix s' prefix' else false
  | String _ _, EmptyString => false
  end.

(** [strings.Contains]: [substr] starts at some offset of [s]. *)
Fixpoint Contains (s substr : string) : bool :=
  HasPrefix s substr ||
  match s with
  | EmptyString => false
  | String _ s' => Contains s' substr
  end.

(** [strings.Join]. *)
Fixpoint Join (elems : list string) (sep : string) : string :=
  match elems with
  | [] => EmptyString
  | [e] => e
  | e :: rest => e ++ sep ++ Join rest sep
  end.

(** The table [asciiSpace] of package [strings]: tab, line feed, vertical
    tab, form feed, carriage return and space. *)
Definition isSpace (c : ascii) : bool :=
  let n := nat_of_ascii c in
  (Nat.leb 9 n && Nat.leb n 13) || Nat.eqb n 32.

Fixpoint TrimLeft (s : string) : string :=
  match s with
  | EmptyString => EmptyString
  | String c s' => if isSpace c then TrimLeft s' else s
  end.

Fixpoint TrimRight (s : string) : string :=
  match s with
  | EmptyString => EmptyString
  | String c s' =>
      match TrimRight s' with
      | EmptyString => if isSpace c then EmptyString else String c EmptyString
      | t => String c t
      end
  end.

(** [strings.TrimSpace] as far as its loops over [asciiSpace] go. Go
    leaves them at a byte that is [utf8.RuneSelf] or more and trims
    Unicode white space from there; that part is not embedded, so the
    function is Go's on strings of bytes below [utf8.RuneSelf] (see
    [is_ascii]), which a revision printed by [git rev-parse] is. *)
Definition TrimSpace (s : string) : string := TrimRight (TrimLeft s).

(** [strings.LastIndex s "/"], with [None] for Go's [-1]. *)
Fixpoint LastIndexByte (s : string) (b : ascii) : option nat :=
  match s with
  | EmptyString => None
  | String c s' =>
      match LastIndexByte s' b with
      | Some i => Some (S i)
      | None => if Ascii.eqb c b then Some 0 else None
      end
  end.

(** The slice [s[n:]]. *)
Fixpoint drop (n : nat) (s : string) : string :=
  match n, s with
  | 0, _ => s
  | S n', String _ s' => drop n' s'
  | S _, EmptyString => EmptyString
  end.

End strings.

Module path.

Definition slash : ascii := "/"%char.

(** The loop [for len(path) > 0 && path[len(path)-1] == '/'] of
    [path.Base]: it removes the trailing slashes. *)
Fixpoint stripTrailingSlashes (p : string) : string :=
  match p with
  | EmptyString => EmptyString
  | String c p' =>
      match stripTrailingSlashes p' with
      | EmptyString => if Ascii.eqb c slash then EmptyString else String c EmptyString
      | t => String c t
      end
  end.

(** [path.Base]: the last element of the path, split at slashes on every
    host. *)
Definition Base (p : string) : string :=
  match p with
  | EmptyString => "."
  | _ =>
      let p1 := stripTrailingSlashes p in
      let p2 := match strings.LastIndexByte p1 slash with
                | Some i => strings.drop (S i) p1
                | None => p1
                end in
      match p2 with
      | EmptyString => "/"
      | _ => p2
      end
  end.

(** A name without a slash. *)
Definition slash_free (name : string) : Prop :=
  strings.LastIndexByte name slash = None.

End path.

(** [path/filepath] on a POSIX host, where [os.PathSeparator] is the
    slash: [filepath.Base] is [path.Base] and [filepath.FromSlash] returns
    its argument. The command is embedded as it runs there; [host] has
    the candidates of the search for any separator. *)
Module filepath.
Definition Base (p : string) : string := path.Base p.
Definition FromSlash (p : string) : string := p.
End filepath.

(** The host-dependent part of lines 154-164, with [os.PathSeparator]
    as a parameter. *)
Module host.

(** [os.PathSeparator] on Windows: the backslash. *)
Definition windows : ascii := ascii_of_nat 92.

(** [strings.ReplaceAll(path, "/", string(Separator))]. *)
Fixpoint replaceSlashes (Separator : ascii) (p : string) : string :=
  match p with
  | EmptyString => EmptyString
  | String c p' =>
      String (if Ascii.eqb c path.slash then Separator else c)
             (replaceSlashes Separator p')
  end.

(** [filepath.FromSlash]: the path itself where the separator is the
    slash, and the path with every slash replaced elsewhere. *)
Definition FromSlash (Separator : ascii) (p : string) : string :=
  if Ascii.eqb Separator path.slash then p else replaceSlashes Separator p.

(** The default locations, as lines 154-164 build them on the host. *)
Definition paths (Separator : ascii) : list string :=
  [ "buildkite.yml";
    "buildkite.yaml";
    "buildkite.json";
    FromSlash Separator ".buildkite/pipeline.yml";
    FromSlash Separator ".buildkite/pipeline.yaml";
    FromSlash Separator ".buildkite/pipeline.json";
    FromSlash Separator "buildkite/pipeline.yml";
    FromSlash Separator "buildkite/pipeline.yaml";
    FromSlash Separator "buildkite/pipeline.json" ].

(** [name] is the base filename of [p] on the host: what follows the
    last separator, the slash counting as one everywhere. *)
Definition base_filename (Separator : ascii) (p name : string) : Prop :=
  name <> EmptyString /\
  strings.LastIndexByte name Separator = None /\
  strings.LastIndexByte name path.slash = None /\
  exists dir, p = (dir ++ String Separator name)%string.

End host.

(** ** Data of the command *)

(** Go's [error] values, as far as the command tells them apart: the
    type assertion of [err] to an [api.ErrorResponse] and the response's
    [StatusCode]. *)
Inductive error : Type :=
| ErrorResponse (StatusCode : Z) (Message : string)
| errorString (s : string).

(** [PipelineUploadConfig], as filled by [cliconfig.Load]. *)
Record PipelineUploadConfig : Type := {
  FilePath : string;
  Replace : bool;
  Job : string;
  DryRun : bool;
  NoInterpolation : bool;
  RedactedVars : list string;
  Debug : bool;
  NoColor : bool;
  Experiments : list string;
  Profile : string;
  DebugHTTP : bool;
  AgentAccessToken : string;
  Endpoint : string;
  NoHTTP2 : bool
}.

Module retry.

(** Modelled from the spec: retry.Config, the RetryPolicy
    "{maxAttempts: int, interval: duration}" of the data model. The source
    builds it as [retry.Config{Maximum: 60, Interval: 5 * time.Second}];
    [Interval] is in seconds. *)
Record Config : Type := { Maximum : nat; Interval : Z }.

(** Modelled from the spec: retry.Stats, the value handed to the
    callback. It carries what the warning prints, "attempt index and
    configured interval", and the "shared stop-retrying flag" that the
    callback sets with [Break]. *)
Record Stats : Type := { Attempt : nat; Cfg : Config; breakOut : bool }.

Definition Break (s : Stats) : Stats :=
  {| Attempt := Attempt s; Cfg := Cfg s; breakOut := true |}.

Definition nextAttempt (s : Stats) : Stats :=
  {| Attempt := S (Attempt s); Cfg := Cfg s; breakOut := breakOut s |}.

End retry.

(** Every logger call of the source is a constructor that carries the
    arguments of its format string; the comment gives the line. *)
Inductive Msg : Type :=
| LoadFailed (err : error)                          (* 122 *)
| ReadingFrom (file : string)                       (* 136 *)
| ReadFileFailed (err : error)                      (* 141 *)
| ReadingStdin                                      (* 144 *)
| ReadStdinFailed (err : error)                     (* 149 *)
| Searching                                         (* 152 *)
| MultipleConfigs (joined : string)                 (* 177 *)
| NoDefaultConfig                                   (* 179 *)
| FoundConfig (found : string)                      (* 184 *)
| ReadFoundFailed (found : string) (err : error)    (* 190 *)
| EmptyConfig                                       (* 196 *)
| RevParseFailed (commitRef : string) (err : error) (* 206 *)
| UpdatingCommit (trimmedCmdOut : string)           (* 209 *)
| ParseFailed (src : string) (err : error)          (* 227 *)
| EncodeFailed (err : error)                        (* 238 *)
| SerialiseFailed (src : string) (err : error)      (* 257 *)
| RedactedVarsFound (src : string)                  (* 262 *)
| MissingJob                                        (* 274 *)
| MissingToken                                      (* 279 *)
| UploadWarning (err : error) (s : retry.Stats)     (* 294 *)
| Unrecoverable                                     (* 298 *)
| UploadFailed (err : error)                        (* 308 *)
| UploadOk.                                         (* 311 *)

Inductive Level : Type := Info | Warn | Error | Fatal.

(** The [err] of a Go result pair. *)
Definition err_of {A} (r : error + A) : option error :=
  match r with inl err => Some err | inr _ => None end.

Section Command.

(** The parsed pipeline, [*agent.PipelineParserResult]: opaque to the
    command. *)
Context {Doc : Type}.

(** [api.Pipeline], the body of one upload request. *)
Record Pipeline : Type := {
  UUID : string;
  Document : Doc;
  ReplaceSteps : bool
}.

(** What the process does, in the order it does it: each call of a
    collaborator with the answer it got ([failed] is the Go [err], [None]
    for [nil]), and each line it logs. *)
Inductive Event : Type :=
| Log (lvl : Level) (m : Msg)
| LoadConfig (failed : option error)           (* cliconfig.Load *)
| Stat (name : string) (found : bool)          (* os.Stat, found: err == nil *)
| ReadFile (name : string) (failed : option error) (* ioutil.ReadFile *)
| StdinIsReadable (readable : bool)            (* stdin.IsReadable *)
| ReadStdin (failed : option error)            (* ioutil.ReadAll(os.Stdin) *)
| GitRevParse (commitRef : string) (failed : option error)
                                               (* exec.Command(git, rev-parse, ref) *)
| Parse (filename : string) (failed : option error)
                                               (* agent.PipelineParser{..}.Parse *)
| EncodeStdout (out : error + string)          (* enc.Encode to os.Stdout *)
| GetValuesToRedact (vars : list string)       (* redaction.GetValuesToRedact *)
| MarshalJSON (failed : option error)          (* result.MarshalJSON *)
| NewUUID (uuid : string)                      (* api.NewUUID *)
| UploadPipeline (job : string) (p : Pipeline) (failed : option error)
                                               (* client.UploadPipeline *)
| Sleep (seconds : Z).                         (* time.Sleep in retry.Do *)

(** The collaborators. A call that may fail returns [error + _]. The
    [n]th UUID and the answer to the [n]th upload request (counted from
    0) are the world's to choose. *)
Record World : Type := {
  cliconfig_Load : error + PipelineUploadConfig;
  stat_ok : string -> bool;
  read_file : string -> error + string;
  stdin_readable : bool;
  read_stdin : error + string;
  os_Environ : gmap string string;
  git_rev_parse : string -> error + string;
  parser_Parse : gmap string string -> string -> string -> bool -> error + Doc;
  json_Encode : Doc -> error + string;
  doc_MarshalJSON : Doc -> error + string;
  redaction_values : list string -> gmap string string -> list string;
  api_NewUUID : nat -> string;
  api_UploadPipeline : nat -> string -> Pipeline -> option error
}.

(** The state of the running process: the trace so far and how many
    UUIDs and upload requests the world has served. *)
Record Proc : Type := {
  trace : list Event;
  uuids : nat;
  requests : nat
}.

Definition start : Proc := {| trace := []; uuids := 0; requests := 0 |}.

(** A computation either yields a value or ends the process through
    [l.Fatal] with the message it printed. *)
Definition M (A : Type) : Type := Proc -> Proc * (Msg + A).

Definition ret {A} (a : A) : M A := fun p => (p, inr a).

Definition bind {A B} (m : M A) (k : A -> M B) : M B :=
  fun p =>
    match m p with
    | (p', inr a) => k a p'
    | (p', inl msg) => (p', inl msg)
    end.

(** The process after some more events. *)
Definition extend (p : Proc) (es : list Event) : Proc :=
  {| trace := trace p ++ es; uuids := uuids p; requests := requests p |}.

Definition emit (e : Event) : M unit := fun p => (extend p [e], inr tt).

End Command.

Arguments Pipeline : clear implicits.
Arguments Event : clear implicits.
Arguments World : clear implicits.
Arguments Proc : clear implicits.
Arguments M : clear implicits.

Notation "x <- m ;; k" := (bind m (fun x => k))
  (at level 100, m at next level, right associativity).
Notation "m ;;; k" := (bind m (fun _ => k))
  (at level 100, right associativity).
(** ** The command *)

Section Action.

Context {Doc : Type} (w : World Doc).

Local Abbreviation M := (M Doc).

(** *** Logger and collaborators *)

Definition log (lvl : Level) (m : Msg) : M unit := emit (Log lvl m).

(** [l.Fatal]: print and leave the process. *)
Definition fatal {A} (m : Msg) : M A :=
  fun p => (fst (emit (Log Fatal m) p), inl m).

(** A call of a collaborator: record it with its answer, return the
    answer. *)
Definition call {A} (answer : A) (e : Event Doc) : M A :=
  emit e ;;; ret answer.

Definition cliconfig_Load_call : M (error + PipelineUploadConfig) :=
  call (cliconfig_Load w) (LoadConfig (err_of (cliconfig_Load w))).

Definition os_Stat (name : string) : M bool :=
  call (stat_ok w name) (Stat name (stat_ok w name)).

Definition ioutil_ReadFile (name : string) : M (error + string) :=
  call (read_file w name) (ReadFile name (err_of (read_file w name))).

Definition stdin_IsReadable : M bool :=
  call (stdin_readable w) (StdinIsReadable (stdin_readable w)).

Definition ioutil_ReadAll_Stdin : M (error + string) :=
  call (read_stdin w) (ReadStdin (err_of (read_stdin w))).

Definition git_rev_parse_Output (commitRef : string) : M (error + string) :=
  call (git_rev_parse w commitRef)
       (GitRevParse commitRef (err_of (git_rev_parse w commitRef))).

Definition PipelineParser_Parse (environ : gmap string string)
    (filename input : string) (noInterpolation : bool) : M (error + Doc) :=
  let r := parser_Parse w environ filename input noInterpolation in
  call r (Parse filename (err_of r)).

Definition json_Encoder_Encode (result : Doc) : M (error + string) :=
  call (json_Encode w result) (EncodeStdout (json_Encode w result)).

Definition redaction_GetValuesToRedact (vars : list string)
    (environ : gmap string string) : M (list string) :=
  call (redaction_values w vars environ) (GetValuesToRedact vars).

Definition result_MarshalJSON (result : Doc) : M (error + string) :=
  call (doc_MarshalJSON w result) (MarshalJSON (err_of (doc_MarshalJSON w result))).

Definition api_NewUUID_call : M string :=
  fun p =>
    let u := api_NewUUID w (uuids p) in
    ({| trace := trace p ++ [NewUUID u]; uuids := S (uuids p); requests := requests p |},
     inr u).

Definition client_UploadPipeline (job : string) (pl : Pipeline Doc) : M (option error) :=
  fun p =>
    let err := api_UploadPipeline w (requests p) job pl in
    ({| trace := trace p ++ [UploadPipeline job pl err]; uuids := uuids p;
        requests := S (requests p) |},
     inr err).

Definition time_Sleep (seconds : Z) : M unit := emit (Sleep seconds).

(** Modelled from the spec: retry.Do (package retry of this repository,
    not among the sources). "Loop: up to maxAttempts attempts, fixed
    interval delay between attempts (no exponential backoff, no jitter).
    [...] success on any attempt ends the loop [...] Exhausting all
    attempts without success is fatal", and an attempt that marks its
    error as permanent (here [s.Break()]) makes the loop "abort
    immediately, independent of remaining budget". The callback gets the
    [Stats] with the attempt index, counted from 1, and may set its break
    flag; [Do] returns [None] for Go's [nil] and otherwise the error of
    the last attempt. *)
Fixpoint retry_loop (callback : retry.Stats -> M (retry.Stats * option error))
    (remaining : nat) (s : retry.Stats) (last : option error) : M (option error) :=
  match remaining with
  | 0 => ret last
  | S r =>
      res <- callback s ;;
      let '(s', err) := res in
      match err with
      | None => ret None
      | Some e =>
          if retry.breakOut s' then ret (Some e)
          else
            (match r with
             | 0 => ret tt
             | S _ => time_Sleep (retry.Interval (retry.Cfg s'))
             end) ;;;
            retry_loop callback r (retry.nextAttempt s') (Some e)
      end
  end.

Definition retry_Do (callback : retry.Stats -> M (retry.Stats * option error))
    (config : retry.Config) : M (option error) :=
  retry_loop callback (retry.Maximum config)
    {| retry.Attempt := 1; retry.Cfg := config; retry.breakOut := false |} None.

(** *** Lines 131-192: the pipeline source *)

(** The default locations, in the order they are tried. *)
Definition paths : list string :=
  [ "buildkite.yml";
    "buildkite.yaml";
    "buildkite.json";
    filepath.FromSlash ".buildkite/pipeline.yml";
    filepath.FromSlash ".buildkite/pipeline.yaml";
    filepath.FromSlash ".buildkite/pipeline.json";
    filepath.FromSlash "buildkite/pipeline.yml";
    filepath.FromSlash "buildkite/pipeline.yaml";
    filepath.FromSlash "buildkite/pipeline.json" ].

(** [for _, path := range paths { if _, err := os.Stat(path); err == nil
    { exists = append(exists, path) } }]. *)
Fixpoint stat_loop (ps : list string) (exists_ : list string) : M (list string) :=
  match ps with
  | [] => ret exists_
  | p :: ps' =>
      ok <- os_Stat p ;;
      stat_loop ps' (if ok then exists_ ++ [p] else exists_)
  end.

(** Returns [(filename, input)]; [filename] stays empty for STDIN. *)
Definition resolve_source (cfg : PipelineUploadConfig) : M (string * string) :=
  if negb (String.eqb (FilePath cfg) EmptyString) then
    log Info (ReadingFrom (FilePath cfg)) ;;;
    let filename := filepath.Base (FilePath cfg) in
    r <- ioutil_ReadFile (FilePath cfg) ;;
    match r with
    | inl err => fatal (ReadFileFailed err)
    | inr input => ret (filename, input)
    end
  else
    readable <- stdin_IsReadable ;;
    if readable then
      log Info ReadingStdin ;;;
      r <- ioutil_ReadAll_Stdin ;;
      match r with
      | inl err => fatal (ReadStdinFailed err)
      | inr input => ret (EmptyString, input)
      end
    else
      log Info Searching ;;;
      exists_ <- stat_loop paths [] ;;
      if Nat.ltb 1 (length exists_) then
        fatal (MultipleConfigs (strings.Join exists_ ", "))
      else
        match exists_ with
        | [] => fatal NoDefaultConfig
        | found :: _ =>
            log Info (FoundConfig found) ;;;
            let filename := path.Base found in
            r <- ioutil_ReadFile found ;;
            match r with
            | inl err => fatal (ReadFoundFailed found err)
            | inr input => ret (filename, input)
            end
        end.

(** Lines 151-191, the search for a default file, on a host with the
    given [os.PathSeparator]; with the slash it is the third branch of
    [resolve_source]. *)
Definition discover (Separator : ascii) : M (string * string) :=
  log Info Searching ;;;
  exists_ <- stat_loop (host.paths Separator) [] ;;
  if Nat.ltb 1 (length exists_) then
    fatal (MultipleConfigs (strings.Join exists_ ", "))
  else
    match exists_ with
    | [] => fatal NoDefaultConfig
    | found :: _ =>
        log Info (FoundConfig found) ;;;
        let filename := path.Base found in
        r <- ioutil_ReadFile found ;;
        match r with
        | inl err => fatal (ReadFoundFailed found err)
        | inr input => ret (filename, input)
        end
    end.

(** *** Lines 199-212: the environment and BUILDKITE_COMMIT *)

Definition resolve_environ : M (gmap string string) :=
  let environ := os_Environ w in
  match environ !! "BUILDKITE_COMMIT" with
  | Some commitRef =>
      r <- git_rev_parse_Output commitRef ;;
      match r with
      | inl err =>
          log Warn (RevParseFailed commitRef err) ;;;
          ret environ
      | inr cmdOut =>
          let trimmedCmdOut := strings.TrimSpace cmdOut in
          log Info (UpdatingCommit trimmedCmdOut) ;;;
          ret (<["BUILDKITE_COMMIT" := trimmedCmdOut]> environ)
      end
  | None => ret environ
  end.

(** Lines 214-217. *)
Definition source_name (filename : string) : string :=
  if String.eqb filename EmptyString then "(stdin)" else filename.

(** *** Lines 219-228: parsing *)

Definition parse_pipeline (cfg : PipelineUploadConfig)
    (environ : gmap string string) (filename input : string) : M Doc :=
  r <- PipelineParser_Parse environ filename input (NoInterpolation cfg) ;;
  match r with
  | inl err => fatal (ParseFailed (source_name filename) err)
  | inr result => ret result
  end.

(** Everything up to and including the parse: the environment handed to
    the parser, the source name and the parsed pipeline. *)
Definition prepare (cfg : PipelineUploadConfig)
    : M (gmap string string * string * Doc) :=
  fi <- resolve_source cfg ;;
  let '(filename, input) := fi in
  (if Nat.eqb (String.length input) 0 then fatal EmptyConfig else ret tt) ;;;
  environ <- resolve_environ ;;
  let src := source_name filename in
  result <- parse_pipeline cfg environ filename input ;;
  ret (environ, src, result).

(** *** Lines 230-242: dry run *)

Definition dry_run (result : Doc) : M unit :=
  r <- json_Encoder_Encode result ;;
  match r with
  | inl err => fatal (EncodeFailed err)
  | inr _ => ret tt
  end.

(** *** Lines 244-264: redacted variables *)

(** Lines 260-263. The source has the [if] without its braces; the
    statement under it is read as its body. *)
Fixpoint scan_needles (serialisedPipeline src : string) (needles : list string)
    : M unit :=
  match needles with
  | [] => ret tt
  | needle :: rest =>
      if strings.Contains serialisedPipeline needle
      then fatal (RedactedVarsFound src)
      else scan_needles serialisedPipeline src rest
  end.

Definition redaction_guard (cfg : PipelineUploadConfig)
    (environ : gmap string string) (result : Doc) (src : string) : M unit :=
  if Nat.ltb 0 (length (RedactedVars cfg)) then
    needles <- redaction_GetValuesToRedact (RedactedVars cfg) environ ;;
    r <- result_MarshalJSON result ;;
    match r with
    | inl err => fatal (SerialiseFailed src err)
    | inr serialisedPipeline => scan_needles serialisedPipeline src needles
    end
  else ret tt.

(** *** Lines 266-270: a second loop over the default locations

    The source repeats the loop of lines 168-172 here. Its [paths] and
    [exists] are the variables of the search branch, which are not in
    scope at this point; the loop is read with those names standing for
    what they stand for there. Nothing uses the list it builds. *)
Definition leftover_stat_loop : M unit :=
  _ <- stat_loop paths [] ;; ret tt.

(** *** Lines 272-280: job and token *)

Definition check_job_and_token (cfg : PipelineUploadConfig) : M unit :=
  (if String.eqb (Job cfg) EmptyString then fatal MissingJob else ret tt) ;;;
  (if String.eqb (AgentAccessToken cfg) EmptyString then fatal MissingToken else ret tt).

(** *** Lines 282-311: the upload *)

(** [&retry.Config{Maximum: 60, Interval: 5 * time.Second}]. *)
Definition upload_retry_config : retry.Config :=
  {| retry.Maximum := 60; retry.Interval := 5 |}.

(** [apierr, ok := err.(...); ok && apierr.Response.StatusCode == 422]. *)
Definition is_unprocessable (err : error) : bool :=
  match err with
  | ErrorResponse code _ => Z.eqb code 422
  | errorString _ => false
  end.

(** The closure given to [retry.Do], lines 291-303. *)
Definition upload_callback (cfg : PipelineUploadConfig) (uuid : string)
    (result : Doc) (s : retry.Stats) : M (retry.Stats * option error) :=
  err <- client_UploadPipeline (Job cfg)
           {| UUID := uuid; Document := result; ReplaceSteps := Replace cfg |} ;;
  match err with
  | Some e =>
      log Warn (UploadWarning e s) ;;;
      if is_unprocessable e then
        log Error Unrecoverable ;;;
        ret (retry.Break s, Some e)
      else ret (s, Some e)
  | None => ret (s, None)
  end.

Definition submit (cfg : PipelineUploadConfig) (result : Doc) : M unit :=
  uuid <- api_NewUUID_call ;;
  err <- retry_Do (upload_callback cfg uuid result) upload_retry_config ;;
  match err with
  | Some e => fatal (UploadFailed e)
  | None => log Info UploadOk
  end.

(** Lines 244-311, what follows the dry-run exit. *)
Definition deliver (cfg : PipelineUploadConfig) (environ : gmap string string)
    (src : string) (result : Doc) : M unit :=
  redaction_guard cfg environ result src ;;;
  leftover_stat_loop ;;;
  check_job_and_token cfg ;;;
  submit cfg result.

(** *** The [Action] of [PipelineUploadCommand], lines 114-312

    [HandleGlobalFlags] and its deferred [done] set up profiling and
    experiments and take no part in the workflow. *)
Definition Action : M unit :=
  c <- cliconfig_Load_call ;;
  match c with
  | inl err => fatal (LoadFailed err)
  | inr cfg =>
      r <- prepare cfg ;;
      let '(environ, src, result) := r in
      if DryRun cfg then dry_run result
      else deliver cfg environ src result
  end.

(** One invocation of the command: the final process state and how it
    ended, [inl msg] after [l.Fatal] (exit status 1) and [inr tt] after a
    normal return (exit status 0). *)
Definition PipelineUploadCommand : Proc Doc * (Msg + unit) := Action start.

End Action.

(** ** Reading a trace *)

Section Traces.

Context {Doc : Type}.

Definition is_upload (e : Event Doc) : bool :=
  match e with UploadPipeline _ _ _ => true | _ => false end.

Definition is_new_uuid (e : Event Doc) : bool :=
  match e with NewUUID _ => true | _ => false end.

Definition is_stat (e : Event Doc) : bool :=
  match e with Stat _ _ => true | _ => false end.

Definition is_redaction (e : Event Doc) : bool :=
  match e with GetValuesToRedact _ | MarshalJSON _ => true | _ => false end.

Definition count (f : Event Doc -> bool) (tr : list (Event Doc)) : nat :=
  length (List.filter f tr).

(** The number of upload requests sent. *)
Definition attempts (tr : list (Event Doc)) : nat := count is_upload tr.

(** The answers to the upload requests, in order. *)
Definition upload_results (tr : list (Event Doc)) : list (option error) :=
  omap (fun e => match e with UploadPipeline _ _ err => Some err | _ => None end) tr.

(** The UUIDs of the upload requests, in order. *)
Definition upload_uuids (tr : list (Event Doc)) : list string :=
  omap (fun e => match e with UploadPipeline _ pl _ => Some (UUID pl) | _ => None end) tr.

(** The UUIDs generated, in order. *)
Definition generated_uuids (tr : list (Event Doc)) : list string :=
  omap (fun e => match e with NewUUID u => Some u | _ => None end) tr.

(** The error value, if the event is a call that returned one. The error
    of [os.Stat] is not kept as a value: the loops only compare it with
    nil, which the event records as [found]; [failed_call] counts it. *)
Definition failure_of (e : Event Doc) : option error :=
  match e with
  | LoadConfig failed | ReadFile _ failed | ReadStdin failed
  | GitRevParse _ failed | Parse _ failed | MarshalJSON failed
  | UploadPipeline _ _ failed => failed
  | EncodeStdout out => err_of out
  | _ => None
  end.

(** Upload requests and the pauses between them. *)
Inductive Tick : Type := Attempt | Delay (seconds : Z).

Definition schedule (tr : list (Event Doc)) : list Tick :=
  omap (fun e => match e with
                 | UploadPipeline _ _ _ => Some Attempt
                 | Sleep d => Some (Delay d)
                 | _ => None
                 end) tr.

End Traces.

(** [k] attempts, [interval] seconds apart. *)
Fixpoint attempts_schedule (interval : Z) (k : nat) : list Tick :=
  match k with
  | 0 => []
  | 1 => [Attempt]
  | S k' => Attempt :: Delay interval :: attempts_schedule interval k'
  end.

(** ** Predicates on events *)

Local Open Scope list_scope.

Section EventPredicates.

Context {Doc : Type}.

Local Abbreviation Event := (Event Doc).

Definition is_sleep (e : Event) : bool :=
  match e with Sleep _ => true | _ => false end.

(** Events of the steps before the upload: no UUID, no request, no
    pause. *)
Definition quiet (e : Event) : bool :=
  negb (is_upload e) && negb (is_new_uuid e) && negb (is_sleep e).

(** Events of the steps up to the parse: quiet, and nothing of the
    redaction check. *)
Definition preparing (e : Event) : bool :=
  quiet e && negb (is_redaction e).

(** A call that returned an error: one with an error value, or an
    [os.Stat] whose error was not nil. [stdin.IsReadable] returns a
    boolean and no error. *)
Definition failed_call (e : Event) : bool :=
  match e with
  | Stat _ found => negb found
  | _ => match failure_of e with None => false | Some _ => true end
  end.

Definition is_log (e : Event) : bool :=
  match e with Log _ _ => true | _ => false end.

(** An event the command goes on after: anything but a failed call, and
    of the failed calls an [os.Stat] (its error is dropped), a revision
    that could not be resolved, and an upload that failed with something
    other than 422. *)
Definition benign (e : Event) : bool :=
  match e with
  | GitRevParse _ _ => true
  | UploadPipeline _ _ (Some err) => negb (is_unprocessable err)
  | _ => match failure_of e with None => true | Some _ => false end
  end.

(** The first event the command does not go on after, if there is one, is
    followed by log lines only. *)
Fixpoint ends_fatally (tr : list Event) : bool :=
  match tr with
  | [] => true
  | e :: tr' => if benign e then ends_fatally tr' else forallb is_log tr'
  end.

(** The closing log line and the exit that go with the loop's result. *)
Definition closing (res : option error) : Event :=
  match res with
  | None => Log Info UploadOk
  | Some e => Log Fatal (UploadFailed e)
  end.

Definition exit_of (res : option error) : Msg + unit :=
  match res with
  | None => inr tt
  | Some e => inl (UploadFailed e)
  end.

End EventPredicates.

(** ** Triples, and the retry loop as a state machine *)

Section Logic.

Context {Doc : Type}.

Local Abbreviation M := (M Doc).
Local Abbreviation Event := (Event Doc).

(** A triple over the trace: from a trace in [P], the computation ends
    with a value and a trace in [Q], or exits with a message and a trace
    in [F]. *)
Definition hoare {A} (P : list Event -> Prop) (m : M A)
    (Q : A -> list Event -> Prop) (F : Msg -> list Event -> Prop) : Prop :=
  forall p, P (trace p) ->
    match m p with
    | (p', inr a) => Q a (trace p')
    | (p', inl msg) => F msg (trace p')
    end.

(** A computation all of whose events satisfy [E]. *)
Definition emits (E : Event -> bool) {A} (m : M A) : Prop :=
  forall p, exists es, fst (m p) = extend p es /\ forallb E es = true.

(** [loop_run interval u n es r]: with [n] attempts left, the loop may
    produce the events [es] and return [r]. Every request carries the
    UUID [u]. An attempt either succeeds, fails for good with a 422,
    fails as the last one allowed, or fails and is followed, after the
    pause, by the rest of the loop. *)
Inductive loop_run (interval : Z) (u : string)
    : nat -> list Event -> option error -> Prop :=
| loop_succeeded n job pl :
    UUID pl = u ->
    loop_run interval u (S n) [UploadPipeline job pl None] None
| loop_permanent n job pl e s :
    UUID pl = u -> is_unprocessable e = true ->
    loop_run interval u (S n)
      [UploadPipeline job pl (Some e); Log Warn (UploadWarning e s);
       Log Error Unrecoverable]
      (Some e)
| loop_exhausted job pl e s :
    UUID pl = u -> is_unprocessable e = false ->
    loop_run interval u 1
      [UploadPipeline job pl (Some e); Log Warn (UploadWarning e s)]
      (Some e)
| loop_retry n job pl e s es r :
    UUID pl = u -> is_unprocessable e = false ->
    loop_run interval u (S n) es r ->
    loop_run interval u (S (S n))
      (UploadPipeline job pl (Some e) :: Log Warn (UploadWarning e s)
         :: Sleep interval :: es)
      r.

(** A run that reached the upload: quiet events, the UUID, the loop, and
    the closing log line, with the exit that goes with the loop's
    result. *)
Definition Submitted (r : Msg + unit) (tr : list Event) : Prop :=
  exists pre u es res,
    tr = pre ++ NewUUID u :: es ++ [closing res] /\
    forallb quiet pre = true /\
    loop_run (retry.Interval upload_retry_config) u
             (retry.Maximum upload_retry_config) es res /\
    r = exit_of res.

(** How a run can look: quiet throughout, or quiet up to an upload. *)
Definition Shape (r : Msg + unit) (tr : list Event) : Prop :=
  forallb quiet tr = true \/ Submitted r tr.

Definition runs_to_shape (m : M unit) : Prop :=
  hoare (fun tr => forallb quiet tr = true) m
        (fun _ tr => Shape (inr tt) tr) (fun msg tr => Shape (inl msg) tr).

End Logic.

(** ** Where the pipeline came from *)

Section Origins.

Context {Doc : Type} (w : World Doc).

(** Where the pipeline came from. *)
Inductive Origin : Type :=
| explicit (file : string)
| piped
| discovered (file : string).

Definition origin (cfg : PipelineUploadConfig) : option Origin :=
  if negb (String.eqb (FilePath cfg) EmptyString) then Some (explicit (FilePath cfg))
  else if stdin_readable w then Some piped
  else match List.filter (stat_ok w) paths with
       | [found] => Some (discovered found)
       | _ => None
       end.

(** The base name of the file, or ["(stdin)"]. *)
Definition originName (o : Origin) : string :=
  match o with
  | explicit file => filepath.Base file
  | piped => "(stdin)"
  | discovered file => path.Base file
  end.

Definition names_origin (cfg : PipelineUploadConfig) (src : string) : Prop :=
  exists o, origin cfg = Some o /\ src = originName o.

Definition message_names_origin (cfg : PipelineUploadConfig) (msg : Msg) : Prop :=
  match msg with
  | ParseFailed src _ | SerialiseFailed src _ | RedactedVarsFound src =>
      names_origin cfg src
  | _ => True
  end.

(** The invocation loaded [cfg], resolved and parsed its source, and is
    in state [p0] with the environment, source name and pipeline at
    hand. *)
Definition parsed (cfg : PipelineUploadConfig) (p0 : Proc Doc)
    (environ : gmap string string) (src : string) (result : Doc) : Prop :=
  cliconfig_Load w = inr cfg /\
  prepare w cfg (extend start [LoadConfig None]) = (p0, inr (environ, src, result)).

End Origins.

(** ** Further readings of a trace *)

Section Readings.

Context {Doc : Type}.

Local Abbreviation Event := (Event Doc).

Definition is_encode (e : Event) : bool :=
  match e with EncodeStdout _ => true | _ => false end.

Definition is_error_log (e : Event) : bool :=
  match e with Log Error _ => true | _ => false end.

Definition is_upload_ok_log (e : Event) : bool :=
  match e with Log Info UploadOk => true | _ => false end.

Definition is_read (e : Event) : bool :=
  match e with ReadFile _ _ | ReadStdin _ => true | _ => false end.

Definition is_git (e : Event) : bool :=
  match e with GitRevParse _ _ => true | _ => false end.

Definition is_parse (e : Event) : bool :=
  match e with Parse _ _ => true | _ => false end.

Definition is_upload_warning (e : Event) : bool :=
  match e with Log Warn (UploadWarning _ _) => true | _ => false end.

(** Events of the steps before the upload, seen from the loop: no
    request, none of the loop's log lines, no pause. *)
Definition calm (e : Event) : bool :=
  negb (is_upload e) && negb (is_upload_warning e) && negb (is_error_log e)
  && negb (is_upload_ok_log e) && negb (is_sleep e).

(** What was read, in order: [Some name] for a file, [None] for standard
    input. *)
Definition sources_read (tr : list Event) : list (option string) :=
  omap (fun e => match e with
                 | ReadFile name _ => Some (Some name)
                 | ReadStdin _ => Some None
                 | _ => None
                 end) tr.

(** The arguments [git rev-parse] was run with. *)
Definition git_calls (tr : list Event) : list string :=
  omap (fun e => match e with GitRevParse commitRef _ => Some commitRef | _ => None end) tr.

(** The file names the parser was called with. *)
Definition parse_calls (tr : list Event) : list string :=
  omap (fun e => match e with Parse filename _ => Some filename | _ => None end) tr.

(** The errors of the upload warnings of line 294, in order. *)
Definition warned_errors (tr : list Event) : list error :=
  omap (fun e => match e with Log Warn (UploadWarning err _) => Some err | _ => None end) tr.

(** The errors the upload requests were answered with, in order. *)
Definition failed_uploads (tr : list Event) : list error :=
  omap (fun e => match e with UploadPipeline _ _ (Some err) => Some err | _ => None end) tr.

(** The seconds spent in [time.Sleep]. *)
Definition total_pause (tr : list Event) : Z :=
  foldr (fun e acc => match e with Sleep d => (d + acc)%Z | _ => acc end) 0%Z tr.

(** The request of line 292 for a given configuration, UUID and parsed
    pipeline. *)
Definition request_of (cfg : PipelineUploadConfig) (u : string) (result : Doc)
    (e : Event) : Prop :=
  match e with
  | UploadPipeline job pl _ =>
      job = Job cfg /\
      pl = {| UUID := u; Document := result; ReplaceSteps := Replace cfg |}
  | _ => True
  end.

End Readings.

Section Dataflow.

Context {Doc : Type} (w : World Doc).

(** The process right after a successful [cliconfig.Load]. *)
Definition loaded : Proc Doc := extend start [LoadConfig None].

(** Lines 244-280: what lies between the dry-run exit and the upload. *)
Definition checks (cfg : PipelineUploadConfig) (environ : gmap string string)
    (src : string) (result : Doc) : M Doc unit :=
  redaction_guard w cfg environ result src ;;;
  leftover_stat_loop w ;;;
  check_job_and_token cfg.

(** What reading from an origin looks like in [sources_read]. *)
Definition read_of (o : Origin) : option string :=
  match o with
  | explicit file | discovered file => Some file
  | piped => None
  end.

(** The [Filename] the parser gets, lines 138, 187 and 222. *)
Definition filename_of (o : Origin) : string :=
  match o with
  | explicit file => filepath.Base file
  | piped => EmptyString
  | discovered file => path.Base file
  end.

(** What the world holds at an origin. *)
Definition content_of (o : Origin) : error + string :=
  match o with
  | explicit file | discovered file => read_file w file
  | piped => read_stdin w
  end.

End Dataflow.

(** ** White space at the ends of a string *)

(** Every byte is below [utf8.RuneSelf]. *)
Definition is_ascii (s : string) : bool :=
  forallb (fun c => Nat.ltb (nat_of_ascii c) 128) (list_ascii_of_string s).

Fixpoint all_space (s : string) : bool :=
  match s with
  | EmptyString => true
  | String c s' => strings.isSpace c && all_space s'
  end.

Fixpoint last_char (s : string) : option ascii :=
  match s with
  | EmptyString => None
  | String c EmptyString => Some c
  | String _ s' => last_char s'
  end.

(** Non-empty, and neither the first nor the last character is white
    space. *)
Definition trimmed (s : string) : Prop :=
  match s with
  | EmptyString => False
  | String c _ => strings.isSpace c = false
  end /\
  match last_char s with
  | None => False
  | Some c => strings.isSpace c = false
  end.

(** ** Sample invocations

    Worlds in which the parsed pipeline is its own text: the parser
    returns its input, and both JSON encoders return the document. *)

Module Samples.

Definition config (file job token : string) (dry : bool) (redacted : list string)
    : PipelineUploadConfig :=
  {| FilePath := file; Replace := false; Job := job; DryRun := dry;
     NoInterpolation := false; RedactedVars := redacted;
     Debug := false; NoColor := false; Experiments := []; Profile := EmptyString;
     DebugHTTP := false; AgentAccessToken := token;
     Endpoint := "https://agent.buildkite.com/v3"; NoHTTP2 := false |}.

Definition lookup_file (files : list (string * string)) (name : string)
    : option string :=
  snd <$> List.find (fun f => String.eqb (fst f) name) files.

Definition no_such_file : error := errorString "no such file or directory".
Definition bad_revision : error := errorString "exit status 128".
Definition server_error : error := ErrorResponse 500 "Internal Server Error".
Definition unprocessable : error := ErrorResponse 422 "Unprocessable Entity".
Definition closed_pipe : error := errorString "write /dev/stdout: broken pipe".

Definition world (cfg : PipelineUploadConfig) (files : list (string * string))
    (piped : option string) (env : gmap string string) (git : error + string)
    (encode : string -> error + string) (responses : nat -> option error)
    : World string :=
  {| cliconfig_Load := inr cfg;
     stat_ok := fun name => bool_decide (is_Some (lookup_file files name));
     read_file := fun name =>
       match lookup_file files name with
       | Some content => inr content
       | None => inl no_such_file
       end;
     stdin_readable := bool_decide (is_Some piped);
     read_stdin := inr (default EmptyString piped);
     os_Environ := env;
     git_rev_parse := fun _ => git;
     parser_Parse := fun _ _ input _ => inr input;
     json_Encode := encode;
     doc_MarshalJSON := fun d => inr d;
     redaction_values := fun vars environ => omap (fun v => environ !! v) vars;
     api_NewUUID := fun n => String (ascii_of_nat (65 + n)) "-uuid";
     api_UploadPipeline := fun n _ _ => responses n |}.

Definition env_secret : gmap string string :=
  {[ "SECRET" := "foo123"; "BUILDKITE_COMMIT" := "HEAD" ]}.

Definition always_ok : nat -> option error := fun _ => None.

(** Fails with [err] on the first [n] requests, then succeeds. *)
Definition fail_first (n : nat) (err : error) : nat -> option error :=
  fun i => if Nat.ltb i n then Some err else None.

Definition always_fail (err : error) : nat -> option error := fun _ => Some err.

(** [ci/pipeline.yml] given on the command line, with job and token. *)
Definition explicit_config (dry : bool) (redacted : list string)
    : PipelineUploadConfig :=
  config "ci/pipeline.yml" "job-1" "token-1" dry redacted.

Definition repository : list (string * string) :=
  [("ci/pipeline.yml", "steps: [make test]")].

Definition uploading (responses : nat -> option error) : World string :=
  world (explicit_config false []) repository None env_secret (inl bad_revision)
        inr responses.

(** Three server errors, then success. *)
Definition flaky_server : World string := uploading (fail_first 3 server_error).

(** A 422 on the first request. *)
Definition rejecting_server : World string := uploading (always_fail unprocessable).

(** Server errors throughout. *)
Definition broken_server : World string := uploading (always_fail server_error).

(** No argument, nothing piped, one default file. *)
Definition discovering : World string :=
  world (config EmptyString "job-1" "token-1" false [])
        [(".buildkite/pipeline.yml", "steps: [make test]")]
        None env_secret (inl bad_revision) inr always_ok.

(** The pipeline text contains the value of SECRET. *)
Definition leaking : World string :=
  world (explicit_config false ["SECRET"])
        [("ci/pipeline.yml", "steps: [deploy --key foo123]")]
        None env_secret (inl bad_revision) inr always_ok.

(** SECRET is redacted and the pipeline text is clean. *)
Definition guarded : World string :=
  world (explicit_config false ["SECRET"]) repository
        None env_secret (inl bad_revision) inr always_ok.

(** A dry run whose standard output is closed. *)
Definition dry_closed_stdout : World string :=
  world (explicit_config true []) repository
        None env_secret (inl bad_revision) (fun _ => inl closed_pipe) always_ok.

(** A dry run. *)
Definition dry : World string :=
  world (explicit_config true ["SECRET"]) repository
        None env_secret (inl bad_revision) inr always_ok.

(** No job id. *)
Definition jobless : World string :=
  world (config "ci/pipeline.yml" EmptyString "token-1" false []) repository
        None env_secret (inl bad_revision) inr always_ok.

(** All nine default files are there. *)
Definition crowded : World string :=
  world (config EmptyString "job-1" "token-1" false [])
        (map (fun name => (name, "steps: []")) paths)
        None env_secret (inl bad_revision) inr always_ok.

(** No default file, no argument, nothing piped. *)
Definition empty_directory : World string :=
  world (config EmptyString "job-1" "token-1" false []) []
        None env_secret (inl bad_revision) inr always_ok.

(** The file given on the command line is empty. *)
Definition empty_file : World string :=
  world (explicit_config false []) [("ci/pipeline.yml", EmptyString)]
        None env_secret (inl bad_revision) inr always_ok.

(** The pipeline is piped in; BUILDKITE_COMMIT is not set. *)
Definition piping : World string :=
  world (config EmptyString "job-1" "token-1" false [])
        [] (Some "steps: [make test]") {[ "SECRET" := "foo123" ]} (inl bad_revision)
        inr always_ok.

(** The serialisation for the redaction check fails. *)
Definition unserialisable : World string :=
  {| cliconfig_Load := cliconfig_Load guarded;
     stat_ok := stat_ok guarded;
     read_file := read_file guarded;
     stdin_readable := stdin_readable guarded;
     read_stdin := read_stdin guarded;
     os_Environ := os_Environ guarded;
     git_rev_parse := git_rev_parse guarded;
     parser_Parse := parser_Parse guarded;
     json_Encode := json_Encode guarded;
     doc_MarshalJSON := fun _ => inl (errorString "json: unsupported value");
     redaction_values := redaction_values guarded;
     api_NewUUID := api_NewUUID guarded;
     api_UploadPipeline := api_UploadPipeline guarded |}.

(** A redacted variable whose value is empty, handed over as a needle. *)
Definition empty_secret : World string :=
  world (explicit_config false ["SECRET"]) repository
        None {[ "SECRET" := EmptyString ]} (inl bad_revision) inr always_ok.

(** A checkout on Windows: no argument, nothing piped, one default file
    in [.buildkite], and a parser that rejects it. *)
Definition windows_checkout : World string :=
  {| cliconfig_Load := cliconfig_Load discovering;
     stat_ok := fun name => String.eqb name ".buildkite\pipeline.yml";
     read_file := fun name =>
       if String.eqb name ".buildkite\pipeline.yml" then inr "steps: [make test"
       else inl no_such_file;
     stdin_readable := false;
     read_stdin := read_stdin discovering;
     os_Environ := os_Environ discovering;
     git_rev_parse := git_rev_parse discovering;
     parser_Parse := fun _ _ _ _ => inl (errorString "yaml: did not find expected node");
     json_Encode := json_Encode discovering;
     doc_MarshalJSON := doc_MarshalJSON discovering;
     redaction_values := redaction_values discovering;
     api_NewUUID := api_NewUUID discovering;
     api_UploadPipeline := api_UploadPipeline discovering |}.

(** git resolves the revision. *)
Definition resolving : World string :=
  world (explicit_config false []) repository
        None env_secret (inr ("4f0a9c1" +:+ String "010"%char EmptyString)) inr always_ok.

End Samples.

(** ** Facts about the string functions *)

Local Open Scope string_scope.

Section StringFacts.

Lemma append_cons (c : ascii) (a b : string) : String c a ++ b = String c (a ++ b).
Proof. reflexivity. Qed.

Lemma append_empty (b : string) : EmptyString ++ b = b.
Proof. reflexivity. Qed.

Lemma append_empty_r (a : string) : a ++ EmptyString = a.
Proof. induction a as [|c a IH]; [reflexivity|]. now rewrite append_cons, IH. Qed.

Lemma append_assoc (a b c : string) : (a ++ b) ++ c = a ++ b ++ c.
Proof. induction a as [|d a IH]; [reflexivity|]. now rewrite !append_cons, IH. Qed.

Lemma HasPrefix_spec (s prefix : string) :
  strings.HasPrefix s prefix = true <-> exists rest, s = prefix ++ rest.
Proof.
  revert s. induction prefix as [|c prefix IH]; intros s; simpl.
  - split; [intros _; now exists s | reflexivity].
  - destruct s as [|d s]; simpl.
    + split; [discriminate | intros [rest H]; discriminate].
    + setoid_rewrite append_cons.
      destruct (Ascii.eqb_spec c d) as [->|Hne].
      * rewrite IH. split; intros [rest H]; exists rest; congruence.
      * split; [discriminate | intros [rest H]; congruence].
Qed.

(** [strings.Contains] decides "occurs as a literal substring". *)
Lemma Contains_spec (s substr : string) :
  strings.Contains s substr = true <->
  exists before after, s = before ++ substr ++ after.
Proof.
  induction s as [|c s IH]; simpl.
  - rewrite orb_false_r, HasPrefix_spec. split.
    + intros [rest H]. now exists EmptyString, rest.
    + intros [[|b before] [after H]]; [now exists after | discriminate].
  - rewrite orb_true_iff, HasPrefix_spec, IH. split.
    + intros [[rest H] | (before & after & H)].
      * now exists EmptyString, rest.
      * exists (String c before), after. rewrite append_cons. now rewrite H.
    + intros ([|b before] & after & H).
      * left. now exists after.
      * right. exists before, after. rewrite append_cons in H. congruence.
Qed.

Lemma Base_nonempty (p : string) : path.Base p <> EmptyString.
Proof.
  unfold path.Base. destruct p as [|c p]; [discriminate|].
  set (p1 := path.stripTrailingSlashes (String c p)).
  destruct (strings.LastIndexByte p1 path.slash) as [i|].
  - destruct (strings.drop (S i) p1); discriminate.
  - destruct p1; discriminate.
Qed.

Lemma strip_slash_free (name : string) :
  name <> EmptyString -> path.slash_free name ->
  path.stripTrailingSlashes name = name.
Proof.
  unfold path.slash_free.
  induction name as [|c name IH]; [congruence|]. intros _ Hfree.
  simpl in *. destruct (strings.LastIndexByte name path.slash) eqn:E; [discriminate|].
  destruct (Ascii.eqb c path.slash) eqn:Ec; [discriminate|].
  destruct name as [|d name]; simpl; [reflexivity|].
  simpl in IH. rewrite IH by (congruence || reflexivity). reflexivity.
Qed.

Lemma strip_app (dir rest : string) :
  path.stripTrailingSlashes rest = rest -> rest <> EmptyString ->
  path.stripTrailingSlashes (dir ++ rest) = dir ++ rest.
Proof.
  intros Hrest Hne. induction dir as [|c dir IH]; [assumption|].
  rewrite append_cons. simpl. rewrite IH. destruct (dir ++ rest) eqn:E; [|reflexivity].
  destruct dir; [rewrite append_empty in E | rewrite append_cons in E]; congruence.
Qed.

Lemma LastIndex_app (dir name : string) :
  path.slash_free name ->
  strings.LastIndexByte (dir ++ String path.slash name) path.slash
  = Some (String.length dir).
Proof.
  unfold path.slash_free. intros Hfree. induction dir as [|c dir IH].
  - rewrite append_empty. simpl. now rewrite Hfree.
  - rewrite append_cons. simpl. now rewrite IH.
Qed.

Lemma drop_app (dir : string) (c : ascii) (name : string) :
  strings.drop (S (String.length dir)) (dir ++ String c name) = name.
Proof. induction dir as [|d dir IH]; [destruct name; reflexivity|exact IH]. Qed.

(** [path.Base] returns the last element of a path, without its
    directories. *)
Lemma Base_last_element (dir name : string) :
  name <> EmptyString -> path.slash_free name ->
  path.Base (dir ++ String path.slash name) = name.
Proof.
  intros Hne Hfree. unfold path.Base.
  assert (Hstrip : path.stripTrailingSlashes (dir ++ String path.slash name)
                   = dir ++ String path.slash name).
  { apply strip_app; [|discriminate].
    change (String path.slash name) with (String path.slash EmptyString ++ name).
    apply strip_app; [now apply strip_slash_free | assumption]. }
  destruct (dir ++ String path.slash name) eqn:E.
  { destruct dir; discriminate. }
  rewrite Hstrip, <- E, LastIndex_app, drop_app by assumption.
  destruct name; congruence.
Qed.

End StringFacts.

(** ** Sample runs *)

Example Base_nested : path.Base ".buildkite/pipeline.yml" = "pipeline.yml".
Proof. reflexivity. Qed.

Example Base_trailing_slashes : path.Base "ci/steps.yml//" = "steps.yml".
Proof. reflexivity. Qed.

Example Base_root : path.Base "///" = "/".
Proof. reflexivity. Qed.

Example TrimSpace_revision :
  strings.TrimSpace ("  4f0a9c1" ++ String "010"%char EmptyString) = "4f0a9c1".
Proof. reflexivity. Qed.

Example Contains_inside : strings.Contains "steps: [deploy --key foo123]" "foo123" = true.
Proof. reflexivity. Qed.

Example Join_two : strings.Join ["buildkite.yml"; "buildkite.json"] ", "
                   = "buildkite.yml, buildkite.json".
Proof. reflexivity. Qed.

Example all_nine_present :
  exists joined,
    snd (PipelineUploadCommand Samples.crowded) = inl (MultipleConfigs joined) /\
    strings.Contains joined "buildkite/pipeline.json" = true.
Proof. eexists. split; reflexivity. Qed.

Example nothing_to_upload :
  snd (PipelineUploadCommand Samples.empty_directory) = inl NoDefaultConfig.
Proof. reflexivity. Qed.

Example sixty_server_errors :
  let run := PipelineUploadCommand Samples.broken_server in
  attempts (trace (fst run)) = 60 /\
  schedule (trace (fst run)) = attempts_schedule 5 60 /\
  snd run = inl (UploadFailed Samples.server_error).
Proof. vm_compute. repeat split. Qed.

Example revision_resolved :
  snd (resolve_environ Samples.resolving start)
  = inr (<["BUILDKITE_COMMIT" := "4f0a9c1"]> Samples.env_secret).
Proof. reflexivity. Qed.

(** ** Running computations *)

Local Open Scope list_scope.

Section Running.

Context {Doc : Type}.

Local Abbreviation M := (M Doc).
Local Abbreviation Event := (Event Doc).
Local Abbreviation Proc := (Proc Doc).

Lemma extend_nil (p : Proc) : extend p [] = p.
Proof. destruct p. unfold extend. simpl. now rewrite app_nil_r. Qed.

Lemma extend_extend (p : Proc) (es1 es2 : list Event) :
  extend (extend p es1) es2 = extend p (es1 ++ es2).
Proof. unfold extend. simpl. now rewrite app_assoc. Qed.

Lemma trace_extend (p : Proc) (es : list Event) :
  trace (extend p es) = trace p ++ es.
Proof. reflexivity. Qed.

Lemma bind_run {A B} (m : M A) (k : A -> M B) (p : Proc) :
  bind m k p = match m p with
               | (p', inr a) => k a p'
               | (p', inl msg) => (p', inl msg)
               end.
Proof. reflexivity. Qed.

Lemma bind_call {A B} (a : A) (e : Event) (k : A -> M B) (p : Proc) :
  bind (call a e) k p = k a (extend p [e]).
Proof. reflexivity. Qed.

Lemma fatal_run {A} (msg : Msg) (p : Proc) :
  @fatal Doc A msg p = (extend p [Log Fatal msg], inl msg).
Proof. reflexivity. Qed.

Lemma hoare_bind {A B} P (m : M A) Q (k : A -> M B) R F :
  hoare P m Q F -> (forall a, hoare (Q a) (k a) R F) -> hoare P (bind m k) R F.
Proof.
  intros Hm Hk p HP. rewrite bind_run. specialize (Hm p HP).
  destruct (m p) as [p' [msg|a]]; [exact Hm|]. now apply Hk.
Qed.

Lemma hoare_conseq {A} (P P' : list Event -> Prop) (m : M A)
    (Q Q' : A -> list Event -> Prop) (F F' : Msg -> list Event -> Prop) :
  hoare P' m Q' F' ->
  (forall tr, P tr -> P' tr) ->
  (forall a tr, Q' a tr -> Q a tr) ->
  (forall msg tr, F' msg tr -> F msg tr) ->
  hoare P m Q F.
Proof.
  intros Hm HP HQ HF p Hp. specialize (Hm p (HP _ Hp)).
  destruct (m p) as [p' [msg|a]]; auto.
Qed.

Lemma hoare_ext {A} (P : list Event -> Prop) (m m' : M A) Q F :
  (forall p, m p = m' p) -> hoare P m' Q F -> hoare P m Q F.
Proof. intros Heq Hm p HP. rewrite Heq. now apply Hm. Qed.

Lemma emits_ret (E : Event -> bool) {A} (a : A) : emits E (ret a).
Proof. intros p. exists []. now rewrite extend_nil. Qed.

Lemma emits_call (E : Event -> bool) {A} (a : A) e : E e = true -> emits E (call a e).
Proof. intros He p. exists [e]. simpl. now rewrite He. Qed.

Lemma emits_fatal (E : Event -> bool) {A} msg :
  E (Log Fatal msg) = true -> emits E (@fatal Doc A msg).
Proof. intros He p. exists [Log Fatal msg]. simpl. now rewrite He. Qed.

Lemma emits_bind (E : Event -> bool) {A B} (m : M A) (k : A -> M B) :
  emits E m -> (forall a, emits E (k a)) -> emits E (bind m k).
Proof.
  intros Hm Hk p. rewrite bind_run. destruct (Hm p) as (es1 & H1 & HE1).
  destruct (m p) as [p' [msg|a]]; simpl in H1; subst p'.
  - now exists es1.
  - destruct (Hk a (extend p es1)) as (es2 & H2 & HE2).
    exists (es1 ++ es2). rewrite H2, extend_extend, forallb_app, HE1, HE2. easy.
Qed.

Lemma emits_hoare (E : Event -> bool) {A} (m : M A) :
  emits E m ->
  hoare (fun tr => forallb E tr = true) m
        (fun _ tr => forallb E tr = true) (fun _ tr => forallb E tr = true).
Proof.
  intros Hm p HP. destruct (Hm p) as (es & H & HE).
  destruct (m p) as [p' [msg|a]]; simpl in H; subst p';
    rewrite trace_extend, forallb_app, HP, HE; reflexivity.
Qed.

End Running.

(** ** The loops *)

Section Loops.

Context {Doc : Type} (w : World Doc).

Local Abbreviation M := (M Doc).
Local Abbreviation Event := (Event Doc).
Local Abbreviation Proc := (Proc Doc).

(** The search loop asks about every path, in order, and collects the
    ones that exist. *)
Lemma stat_loop_run (ps exists_ : list string) (p : Proc) :
  stat_loop w ps exists_ p =
  (extend p (map (fun name => Stat name (stat_ok w name)) ps),
   inr (exists_ ++ List.filter (stat_ok w) ps)).
Proof.
  revert exists_ p. induction ps as [|name ps IH]; intros exists_ p; simpl.
  - unfold ret. now rewrite extend_nil, app_nil_r.
  - unfold os_Stat. rewrite bind_call, IH, extend_extend. simpl.
    destruct (stat_ok w name); [now rewrite <- app_assoc | reflexivity].
Qed.

Lemma emits_stat_loop (E : Event -> bool) (ps exists_ : list string) :
  (forall name found, E (Stat name found) = true) ->
  emits E (stat_loop w ps exists_).
Proof.
  intros HE p. rewrite stat_loop_run. eexists; split; [reflexivity|].
  induction ps; simpl; [reflexivity | now rewrite HE].
Qed.

(** The needle loop stops at the first needle found in the text. *)
Lemma scan_needles_run (serialisedPipeline src : string) (needles : list string)
    (p : Proc) :
  scan_needles serialisedPipeline src needles p =
  if existsb (strings.Contains serialisedPipeline) needles
  then (extend p [Log Fatal (RedactedVarsFound src)], inl (RedactedVarsFound src))
  else (p, inr tt).
Proof.
  induction needles as [|needle rest IH]; simpl; [reflexivity|].
  destruct (strings.Contains serialisedPipeline needle); [reflexivity | exact IH].
Qed.

End Loops.

(** ** The retry loop as a state machine *)

Section Submitting.

Context {Doc : Type} (w : World Doc).

Lemma upload_callback_run cfg u result s (p : Proc Doc) :
  let pl := {| UUID := u; Document := result; ReplaceSteps := Replace cfg |} in
  let err := api_UploadPipeline w (requests p) (Job cfg) pl in
  let sent := {| trace := trace p ++ [UploadPipeline (Job cfg) pl err];
                 uuids := uuids p; requests := S (requests p) |} in
  upload_callback w cfg u result s p =
  match err with
  | None => (sent, inr (s, None))
  | Some e =>
      if is_unprocessable e
      then (extend sent [Log Warn (UploadWarning e s); Log Error Unrecoverable],
            inr (retry.Break s, Some e))
      else (extend sent [Log Warn (UploadWarning e s)], inr (s, Some e))
  end.
Proof.
  unfold upload_callback, client_UploadPipeline. rewrite bind_run. simpl.
  destruct (api_UploadPipeline w (requests p) (Job cfg) _) as [e|]; [|reflexivity].
  unfold log. rewrite bind_run. simpl.
  destruct (is_unprocessable e); [|reflexivity].
  rewrite bind_run. simpl. now rewrite extend_extend.
Qed.

Lemma retry_loop_step (callback : retry.Stats -> M Doc (retry.Stats * option error))
    (r : nat) (s : retry.Stats) (last : option error) (p : Proc Doc) :
  retry_loop callback (S r) s last p =
  match callback s p with
  | (p1, inl msg) => (p1, inl msg)
  | (p1, inr (s', None)) => (p1, inr None)
  | (p1, inr (s', Some e)) =>
      if retry.breakOut s' then (p1, inr (Some e))
      else retry_loop callback r (retry.nextAttempt s') (Some e)
             match r with
             | 0 => p1
             | S _ => extend p1 [Sleep (retry.Interval (retry.Cfg s'))]
             end
  end.
Proof.
  cbn [retry_loop]. rewrite bind_run.
  destruct (callback s p) as [p1 [msg|[s' [e|]]]]; try reflexivity.
  destruct (retry.breakOut s'); [reflexivity|].
  rewrite bind_run. now destruct r.
Qed.

(** Whatever the server answers, the loop of the command runs as the
    state machine allows and returns. *)
Lemma retry_loop_run cfg u result (n : nat) :
  forall (s : retry.Stats) (last : option error) (p : Proc Doc),
    retry.breakOut s = false ->
    exists es r p',
      retry_loop (upload_callback w cfg u result) (S n) s last p = (p', inr r) /\
      trace p' = trace p ++ es /\
      loop_run (retry.Interval (retry.Cfg s)) u (S n) es r.
Proof.
  induction n as [|n IH]; intros s last p Hs;
    rewrite retry_loop_step, upload_callback_run;
    destruct (api_UploadPipeline w _ _ _) as [e|].
  - destruct (is_unprocessable e) eqn:He; [|rewrite Hs];
      (eexists _, _, _; split; [reflexivity|]; split;
       [cbn; rewrite <- app_assoc; reflexivity | now constructor]).
  - eexists _, _, _. split; [reflexivity|]. split; [reflexivity|].
    now constructor.
  - destruct (is_unprocessable e) eqn:He.
    + eexists _, _, _; split; [reflexivity|]; split;
        [cbn; rewrite <- app_assoc; reflexivity | now constructor].
    + rewrite Hs.
      match goal with
      | |- context [retry_loop _ (S n) ?s' ?l ?q] =>
          destruct (IH s' l q Hs) as (es & r & p' & Hrun & Htr & Hloop)
      end.
      rewrite Hrun. eexists _, r, p'. split; [reflexivity|]. split.
      { rewrite Htr. cbn. rewrite <- !app_assoc. reflexivity. }
      now constructor.
  - eexists _, _, _. split; [reflexivity|]. split; [reflexivity|].
    now constructor.
Qed.

End Submitting.

(** ** What the state machine implies for a trace *)

Section LoopFacts.

Context {Doc : Type}.

Local Abbreviation Event := (Event Doc).

Lemma attempts_app (a b : list Event) : attempts (a ++ b) = attempts a + attempts b.
Proof. unfold attempts, count. now rewrite List.filter_app, length_app. Qed.

Lemma quiet_silent (tr : list Event) :
  forallb quiet tr = true ->
  attempts tr = 0 /\ upload_results tr = [] /\ upload_uuids tr = [] /\
  generated_uuids tr = [] /\ schedule tr = [].
Proof.
  induction tr as [|e tr IH]; [easy|]. simpl. intros [He Htr]%andb_prop.
  destruct (IH Htr) as (H1 & H2 & H3 & H4 & H5).
  unfold attempts, count, upload_results, upload_uuids, generated_uuids, schedule in *.
  destruct e; try discriminate He; cbn; auto.
Qed.

(** The answers of a loop: retryable failures, then the answer that
    ended it, which is what the loop returns. *)
Lemma loop_run_results interval u n (es : list Event) r :
  loop_run interval u n es r ->
  exists fails,
    upload_results es = (Some <$> fails) ++ [r] /\
    Forall (fun e => is_unprocessable e = false) fails /\
    attempts es = S (length fails) /\
    S (length fails) <= n /\
    upload_uuids es = replicate (S (length fails)) u /\
    generated_uuids es = [] /\
    schedule es = attempts_schedule interval (S (length fails)) /\
    match r with
    | None => True
    | Some e => is_unprocessable e = true \/ S (length fails) = n
    end.
Proof.
  induction 1 as [n job pl Hu | n job pl e s Hu He | job pl e s Hu He
                 | n job pl e s es r Hu He Hrun IH].
  - exists []. cbn. rewrite Hu. repeat split; auto. lia.
  - exists []. cbn. rewrite Hu. repeat split; auto. lia.
  - exists []. cbn. rewrite Hu. repeat split; auto.
  - destruct IH as (fails & Hres & Hfails & Hatt & Hle & Huu & Hgen & Hsch & Hend).
    exists (e :: fails). cbn.
    unfold upload_results, upload_uuids, generated_uuids, schedule, attempts, count in *.
    cbn. rewrite Hres, Huu, Hgen, Hsch, Hatt, Hu.
    repeat split; auto; try lia.
    destruct r; [|exact I]. destruct Hend; [now left | right; lia].
Qed.

End LoopFacts.

(** ** The upload step on its own *)

Section SubmitRun.

Context {Doc : Type} (w : World Doc).

Lemma submit_run cfg result (p : Proc Doc) :
  exists es res p',
    submit w cfg result p = (p', exit_of res) /\
    trace p' = trace p ++ NewUUID (api_NewUUID w (uuids p)) :: es ++ [closing res] /\
    loop_run 5 (api_NewUUID w (uuids p)) 60 es res.
Proof.
  unfold submit, retry_Do. rewrite bind_run. cbn [api_NewUUID_call]. rewrite bind_run.
  match goal with
  | |- context [retry_loop ?cb (retry.Maximum _) ?s ?l ?q] =>
      destruct (retry_loop_run w cfg (api_NewUUID w (uuids p)) result 59 s l q eq_refl)
        as (es & r & p' & Hrun & Htr & Hloop)
  end.
  cbn [retry.Maximum upload_retry_config] in *. rewrite Hrun.
  exists es, r. destruct r as [e|]; cbn; eexists; (split; [reflexivity|]);
    (split; [|exact Hloop]); cbn; rewrite Htr; cbn; rewrite <- !app_assoc; reflexivity.
Qed.

Lemma submit_fails cfg result (p p' : Proc Doc) msg :
  submit w cfg result p = (p', inl msg) -> exists e, msg = UploadFailed e.
Proof.
  destruct (submit_run cfg result p) as (es & res & q & Hrun & _). rewrite Hrun.
  destruct res as [e|]; cbn; intros H; inversion H. now exists e.
Qed.


End SubmitRun.

(** ** The shape of a run *)

Section Shape.

Context {Doc : Type}.

Local Abbreviation Event := (Event Doc).

Lemma emits_emit (E : Event -> bool) (e : Event) : E e = true -> emits E (emit e).
Proof. intros He p. exists [e]. simpl. now rewrite He. Qed.

Lemma emits_scan_needles (E : Event -> bool) (ser src : string) (needles : list string) :
  (forall msg, E (Log Fatal msg) = true) ->
  emits E (@scan_needles Doc ser src needles).
Proof.
  intros HE p. rewrite scan_needles_run. destruct (existsb _ _).
  - exists [Log Fatal (RedactedVarsFound src)]. simpl. now rewrite HE.
  - exists []. now rewrite extend_nil.
Qed.

Lemma emits_weaken (E E' : Event -> bool) {A} (m : M Doc A) :
  (forall e, E e = true -> E' e = true) -> emits E m -> emits E' m.
Proof.
  intros HE Hm p. destruct (Hm p) as (es & H & Hes). exists es. split; [exact H|].
  rewrite forallb_forall in *. auto.
Qed.

End Shape.

Ltac emits_step :=
  match goal with
  | |- emits _ (bind _ _) => apply emits_bind
  | |- emits _ (ret _) => apply emits_ret
  | |- emits _ (call _ _) => apply emits_call; reflexivity
  | |- emits _ (emit _) => apply emits_emit; reflexivity
  | |- emits _ (log _ _) => apply emits_emit; reflexivity
  | |- emits _ (fatal _) => apply emits_fatal; reflexivity
  | |- emits _ (stat_loop _ _ _) => apply emits_stat_loop; reflexivity
  | |- emits _ (scan_needles _ _ _) => apply emits_scan_needles; reflexivity
  | |- emits _ (match ?x with _ => _ end) => destruct x
  | |- emits _ _ =>
      progress unfold cliconfig_Load_call, os_Stat, ioutil_ReadFile, stdin_IsReadable,
        ioutil_ReadAll_Stdin, git_rev_parse_Output, PipelineParser_Parse,
        json_Encoder_Encode, redaction_GetValuesToRedact, result_MarshalJSON
  | |- forall _, _ => intro
  end.

Ltac emits_tac := repeat emits_step.

Section Phases.

Context {Doc : Type} (w : World Doc).

Lemma prepare_preparing cfg : emits preparing (prepare w cfg).
Proof. unfold prepare, resolve_source, resolve_environ, parse_pipeline. emits_tac. Qed.

Lemma prepare_quiet cfg : emits quiet (prepare w cfg).
Proof.
  apply emits_weaken with (E := preparing); [|apply prepare_preparing].
  intros e. unfold preparing. now intros [? _]%andb_prop.
Qed.

Lemma dry_run_quiet result : emits quiet (dry_run w result).
Proof. unfold dry_run. emits_tac. Qed.

Lemma redaction_guard_quiet cfg environ result src :
  emits quiet (redaction_guard w cfg environ result src).
Proof. unfold redaction_guard. emits_tac. Qed.

Lemma leftover_stat_loop_quiet : emits quiet (leftover_stat_loop w).
Proof. unfold leftover_stat_loop. emits_tac. Qed.

Lemma check_job_and_token_quiet cfg : emits quiet (@check_job_and_token Doc cfg).
Proof. unfold check_job_and_token. emits_tac. Qed.

End Phases.

Section WholeRun.

Context {Doc : Type} (w : World Doc).

Local Abbreviation Event := (Event Doc).

Lemma shape_quiet (m : M Doc unit) : emits quiet m -> runs_to_shape m.
Proof.
  intros Hm. eapply hoare_conseq; [apply emits_hoare, Hm | auto | |];
    intros; now left.
Qed.

Lemma shape_bind_quiet {A} (m : M Doc A) (k : A -> M Doc unit) :
  emits quiet m -> (forall a, runs_to_shape (k a)) -> runs_to_shape (bind m k).
Proof.
  intros Hm Hk.
  apply hoare_bind with (Q := fun _ tr => forallb quiet tr = true); [|exact Hk].
  eapply hoare_conseq; [apply emits_hoare, Hm | auto | auto |].
  intros; now left.
Qed.

Lemma shape_submit cfg result : runs_to_shape (submit w cfg result).
Proof.
  intros p HP. destruct (submit_run w cfg result p) as (es & res & p' & Hrun & Htr & Hloop).
  rewrite Hrun.
  assert (Hs : Submitted (exit_of res) (trace p'))
    by (exists (trace p), (api_NewUUID w (uuids p)), es, res; auto).
  destruct res; right; exact Hs.
Qed.

Lemma shape_Action : runs_to_shape (Action w).
Proof.
  unfold Action. apply shape_bind_quiet; [emits_tac|]. intros [err|cfg].
  { apply shape_quiet. emits_tac. }
  apply shape_bind_quiet; [apply prepare_quiet|]. intros [[environ src] result].
  destruct (DryRun cfg); [apply shape_quiet, dry_run_quiet|].
  unfold deliver.
  apply shape_bind_quiet; [apply redaction_guard_quiet|]. intros _.
  apply shape_bind_quiet; [apply leftover_stat_loop_quiet|]. intros _.
  apply shape_bind_quiet; [apply check_job_and_token_quiet|]. intros _.
  apply shape_submit.
Qed.

(** Every invocation is quiet throughout or quiet up to an upload. *)
Lemma command_shape :
  Shape (snd (PipelineUploadCommand w)) (trace (fst (PipelineUploadCommand w))).
Proof.
  unfold PipelineUploadCommand. pose proof (shape_Action start eq_refl) as H.
  destruct (Action w start) as [p [msg|[]]]; exact H.
Qed.

End WholeRun.

Section Summary.

Context {Doc : Type} (w : World Doc).

(** The uploads of an invocation: none at all, or one UUID followed by
    retryable failures and a last answer that decides the exit. *)
Lemma run_summary :
  let tr := trace (fst (PipelineUploadCommand w)) in
  let r := snd (PipelineUploadCommand w) in
  (attempts tr = 0 /\ upload_results tr = [] /\ upload_uuids tr = [] /\
   generated_uuids tr = [] /\ schedule tr = []) \/
  (exists u pre post fails final,
     tr = pre ++ NewUUID u :: post /\
     attempts pre = 0 /\
     generated_uuids tr = [u] /\
     upload_uuids tr = replicate (S (length fails)) u /\
     attempts tr = S (length fails) /\
     upload_results tr = (Some <$> fails) ++ [final] /\
     Forall (fun e => is_unprocessable e = false) fails /\
     S (length fails) <= 60 /\
     schedule tr = attempts_schedule 5 (S (length fails)) /\
     r = match final with
         | None => inr tt
         | Some e => inl (UploadFailed e)
         end /\
     match final with
     | None => True
     | Some e => is_unprocessable e = true \/ S (length fails) = 60
     end).
Proof.
  intros tr r. destruct (command_shape w) as [Hq | Hs]; fold tr r in Hq || fold tr r in Hs.
  - left. now apply quiet_silent.
  - right. destruct Hs as (pre & u & es & res & Htr & Hpre & Hloop & Hres).
    set (last := closing res) in *.
    destruct (quiet_silent pre Hpre) as (P1 & P2 & P3 & P4 & P5).
    destruct (loop_run_results _ _ _ _ _ Hloop)
      as (fails & Hr & Hfails & Hatt & Hle & Huu & Hgen & Hsch & Hend).
    assert (Hlast : attempts [last] = 0 /\ upload_results [last] = [] /\
                    upload_uuids [last] = [] /\ generated_uuids [last] = [] /\
                    schedule [last] = []).
    { unfold last. destruct res; easy. }
    destruct Hlast as (L1 & L2 & L3 & L4 & L5).
    exists u, pre, (es ++ [last]), fails, res. rewrite Htr.
    change (NewUUID u :: es ++ [last]) with ([NewUUID u] ++ es ++ [last]).
    rewrite !attempts_app.
    unfold upload_results, upload_uuids, generated_uuids, schedule in *.
    rewrite !omap_app, P2, P3, P4, P5, L2, L3, L4, L5, Hr, Huu, Hgen, Hsch, Hatt, L1, P1.
    cbn. rewrite !app_nil_r.
    repeat split; auto; try lia.
Qed.

End Summary.

(** ** The upload: UUID, retries, permanent failure *)

Lemma results_lookup (fails : list error) (final : option error) (k : nat)
    (x : option error) :
  ((Some <$> fails) ++ [final]) !! k = Some x ->
  (k < length fails /\ exists e, x = Some e /\ fails !! k = Some e) \/
  (k = length fails /\ x = final).
Proof.
  intros Hk. destruct (decide (k < length fails)) as [Hlt | Hge].
  - left. split; [exact Hlt|].
    rewrite lookup_app_l in Hk by now rewrite length_fmap.
    rewrite list_lookup_fmap in Hk.
    destruct (fails !! k) as [e|]; [|discriminate]. exists e. cbn in Hk. split; congruence.
  - right. rewrite lookup_app_r in Hk by (rewrite length_fmap; lia).
    rewrite length_fmap in Hk.
    destruct (k - length fails) as [|j] eqn:Ej; [|discriminate].
    cbn in Hk. split; [lia | congruence].
Qed.

Section UploadProperties.

Context {Doc : Type} (w : World Doc).

(** C1. An invocation that sends at least one upload request generates
    its UUID exactly once, at a point of the trace before which no
    request was sent, and every request of the invocation carries that
    UUID. *)
Theorem uuid_generated_once_and_reused :
  let tr := trace (fst (PipelineUploadCommand w)) in
  0 < attempts tr ->
  exists u pre post,
    tr = pre ++ NewUUID u :: post /\
    attempts pre = 0 /\
    generated_uuids tr = [u] /\
    upload_uuids tr = replicate (attempts tr) u.
Proof.
  intros tr Hsub. destruct (run_summary w) as [(H0 & _) | H]; fold tr in H0 || fold tr in H.
  - lia.
  - destruct H as (u & pre & post & fails & final & Htr & Hpre & Hgen & Huu & Hatt & _).
    exists u, pre, post. rewrite Hatt. auto.
Qed.

(** C2. If the answer to the request number [k+1] is an error with status
    422, that request is the last one: the invocation made exactly [k+1]
    attempts, with the pauses between them only, and exits through
    [l.Fatal] with that error, whatever is left of the 60 attempts. *)
Theorem unprocessable_stops_retrying (k : nat) (e : error) :
  let tr := trace (fst (PipelineUploadCommand w)) in
  upload_results tr !! k = Some (Some e) ->
  is_unprocessable e = true ->
  attempts tr = S k /\
  schedule tr = attempts_schedule 5 (S k) /\
  snd (PipelineUploadCommand w) = inl (UploadFailed e).
Proof.
  intros tr Hk He. destruct (run_summary w) as [(_ & H0 & _) | H]; fold tr in H0 || fold tr in H.
  - rewrite H0 in Hk. discriminate.
  - destruct H as (u & pre & post & fails & final & _ & _ & _ & _ & Hatt & Hres & Hfails
                     & _ & Hsch & Hr & _).
    rewrite Hres in Hk.
    destruct (decide (k < length fails)) as [Hlt | Hge].
    + rewrite lookup_app_l in Hk by now rewrite length_fmap.
      rewrite list_lookup_fmap in Hk.
      destruct (fails !! k) as [e'|] eqn:Ek; [|discriminate]. cbn in Hk.
      assert (e' = e) as -> by congruence.
      rewrite Forall_forall in Hfails.
      assert (is_unprocessable e = false)
        by (apply Hfails; eapply list_elem_of_lookup_2; eauto).
      congruence.
    + rewrite lookup_app_r in Hk by (rewrite length_fmap; lia).
      rewrite length_fmap in Hk.
      destruct (k - length fails) as [|j] eqn:Ej; [|discriminate].
      cbn in Hk. assert (final = Some e) as -> by congruence.
      assert (k = length fails) as -> by lia.
      rewrite Hatt, Hsch, Hr. auto.
Qed.

(** C3. An invocation makes at most 60 upload requests, one after the
    other with a pause of 5 seconds between two of them. A request that
    succeeds is the last one, all requests before it failed with an
    error other than 422, and the command returns normally. A request
    that fails with an error other than 422 is followed by another one as
    long as fewer than 60 were made. If all 60 fail in that way the
    command exits through [l.Fatal] with the last error. *)
Theorem retries_are_bounded :
  let tr := trace (fst (PipelineUploadCommand w)) in
  let r := snd (PipelineUploadCommand w) in
  attempts tr <= 60 /\
  schedule tr = attempts_schedule 5 (attempts tr) /\
  (forall k, upload_results tr !! k = Some None ->
     r = inr tt /\ attempts tr = S k /\
     forall i, i < k ->
       exists e, upload_results tr !! i = Some (Some e) /\ is_unprocessable e = false) /\
  (forall k e, upload_results tr !! k = Some (Some e) ->
     is_unprocessable e = false -> S k < 60 -> S k < attempts tr) /\
  ((forall i, i < 60 ->
      exists e, upload_results tr !! i = Some (Some e) /\ is_unprocessable e = false) ->
   attempts tr = 60 /\
   exists e, upload_results tr !! 59 = Some (Some e) /\ r = inl (UploadFailed e)).
Proof.
  intros tr r.
  destruct (run_summary w) as [(H0 & H1 & _ & _ & H4) | H];
    fold tr r in H0, H1, H4 || fold tr r in H.
  - rewrite H0, H1, H4. split; [lia|]. split; [reflexivity|].
    split; [intros; discriminate|]. split; [intros; discriminate|].
    intros Hall. destruct (Hall 0) as (e & He & _); [lia | discriminate].
  - destruct H as (u & pre & post & fails & final & _ & _ & _ & _ & Hatt & Hres & Hfails
                     & Hle & Hsch & Hr & Hend).
    rewrite Forall_forall in Hfails.
    rewrite Hatt, Hres, Hsch. split; [exact Hle|]. split; [reflexivity|].
    split; [|split].
    + intros k Hk. apply results_lookup in Hk as [(_ & e & He & _) | (-> & <-)];
        [discriminate|].
      split; [exact Hr|]. split; [reflexivity|]. intros i Hi.
      destruct (lookup_lt_is_Some_2 fails i Hi) as [e Hi'].
      exists e. split; [|apply Hfails; eapply list_elem_of_lookup_2; eauto].
      rewrite lookup_app_l by now rewrite length_fmap.
      now rewrite list_lookup_fmap, Hi'.
    + intros k e Hk He Hbudget.
      apply results_lookup in Hk as [(Hlt & _) | (-> & <-)]; [lia|].
      destruct Hend; [congruence | lia].
    + intros Hall. assert (length fails = 59) as Hlen.
      { destruct (decide (length fails < 59)) as [Hlt|]; [|lia].
        destruct (Hall (S (length fails))) as (e & He & _); [lia|].
        apply lookup_lt_Some in He. rewrite length_app, length_fmap in He.
        cbn in He. lia. }
      split; [lia|]. destruct (Hall 59) as (e & He & _); [lia|].
      exists e. split; [exact He|].
      apply results_lookup in He as [(Hlt & _) | (_ & <-)]; [lia | exact Hr].
Qed.

End UploadProperties.

Lemma uuid_generated_once_and_reused_witness :
  let tr := trace (fst (PipelineUploadCommand Samples.flaky_server)) in
  0 < attempts tr /\
  exists u pre post,
    tr = pre ++ NewUUID u :: post /\ attempts pre = 0 /\
    generated_uuids tr = [u] /\ upload_uuids tr = replicate (attempts tr) u.
Proof.
  assert (H : 0 < attempts (trace (fst (PipelineUploadCommand Samples.flaky_server))))
    by (vm_compute; lia).
  split; [exact H | exact (uuid_generated_once_and_reused Samples.flaky_server H)].
Defined.

Lemma unprocessable_stops_retrying_witness :
  let tr := trace (fst (PipelineUploadCommand Samples.rejecting_server)) in
  upload_results tr !! 0 = Some (Some Samples.unprocessable) /\
  is_unprocessable Samples.unprocessable = true /\
  attempts tr = 1 /\
  schedule tr = attempts_schedule 5 1 /\
  snd (PipelineUploadCommand Samples.rejecting_server)
  = inl (UploadFailed Samples.unprocessable).
Proof.
  split; [reflexivity|]. split; [reflexivity|].
  exact (unprocessable_stops_retrying Samples.rejecting_server 0 Samples.unprocessable
           eq_refl eq_refl).
Defined.

Lemma retries_are_bounded_witness :
  let tr := trace (fst (PipelineUploadCommand Samples.flaky_server)) in
  upload_results tr !! 3 = Some None /\
  snd (PipelineUploadCommand Samples.flaky_server) = inr tt /\
  attempts tr = 4.
Proof.
  split; [reflexivity|].
  destruct (retries_are_bounded Samples.flaky_server) as (_ & _ & Hok & _).
  destruct (Hok 3 eq_refl) as (Hr & Hatt & _). split; [exact Hr | exact Hatt].
Defined.

(** ** The pipeline source *)

Lemma Join_lists_every_element (elems : list string) (sep name : string) :
  name ∈ elems -> strings.Contains (strings.Join elems sep) name = true.
Proof.
  intros Hin. apply Contains_spec.
  induction elems as [|e rest IH]; [inversion Hin|].
  apply elem_of_cons in Hin as [-> | Hin].
  - destruct rest as [|e' rest]; cbn [strings.Join].
    + exists EmptyString, EmptyString. now rewrite append_empty, append_empty_r.
    + exists EmptyString. eexists. now rewrite append_empty.
  - destruct rest as [|e' rest]; [inversion Hin|].
    destruct (IH Hin) as (before & after & H).
    cbn [strings.Join] in *. rewrite H.
    exists (e +:+ sep +:+ before), after. now rewrite !append_assoc.
Qed.

Section SourceProperties.

Context {Doc : Type} (w : World Doc).

(** C6. The source is the file named on the command line if there is
    one, whatever else is there; otherwise standard input if it is
    readable; otherwise the search over the nine default locations, which
    exits when none exists, exits naming all of them when several exist,
    and reads the single one otherwise. *)
Theorem source_precedence (cfg : PipelineUploadConfig) (p : Proc Doc) :
  let existing := List.filter (stat_ok w) paths in
  let probes := map (fun name => @Stat Doc name (stat_ok w name)) paths in
  let searching := [StdinIsReadable false; Log Info Searching] ++ probes in
  length paths = 9 /\
  (FilePath cfg <> EmptyString ->
   resolve_source w cfg p =
   match read_file w (FilePath cfg) with
   | inr input =>
       (extend p [Log Info (ReadingFrom (FilePath cfg)); ReadFile (FilePath cfg) None],
        inr (filepath.Base (FilePath cfg), input))
   | inl err =>
       (extend p [Log Info (ReadingFrom (FilePath cfg));
                  ReadFile (FilePath cfg) (Some err);
                  Log Fatal (ReadFileFailed err)],
        inl (ReadFileFailed err))
   end) /\
  (FilePath cfg = EmptyString -> stdin_readable w = true ->
   resolve_source w cfg p =
   match read_stdin w with
   | inr input =>
       (extend p [StdinIsReadable true; Log Info ReadingStdin; ReadStdin None],
        inr (EmptyString, input))
   | inl err =>
       (extend p [StdinIsReadable true; Log Info ReadingStdin; ReadStdin (Some err);
                  Log Fatal (ReadStdinFailed err)],
        inl (ReadStdinFailed err))
   end) /\
  (FilePath cfg = EmptyString -> stdin_readable w = false ->
   (existing = [] ->
    resolve_source w cfg p =
    (extend p (searching ++ [Log Fatal NoDefaultConfig]), inl NoDefaultConfig)) /\
   (1 < length existing ->
    resolve_source w cfg p =
    (extend p (searching ++ [Log Fatal (MultipleConfigs (strings.Join existing ", "))]),
     inl (MultipleConfigs (strings.Join existing ", "))) /\
    forall name, name ∈ existing ->
      strings.Contains (strings.Join existing ", ") name = true) /\
   (forall found, existing = [found] ->
    resolve_source w cfg p =
    match read_file w found with
    | inr input =>
        (extend p (searching ++ [Log Info (FoundConfig found); ReadFile found None]),
         inr (path.Base found, input))
    | inl err =>
        (extend p (searching ++ [Log Info (FoundConfig found); ReadFile found (Some err);
                                 Log Fatal (ReadFoundFailed found err)]),
         inl (ReadFoundFailed found err))
    end)).
Proof.
  intros existing probes searching. split; [reflexivity|].
  unfold resolve_source. split; [|split].
  - intros Hfile. destruct (String.eqb_spec (FilePath cfg) EmptyString); [contradiction|].
    cbn [negb]. unfold log, ioutil_ReadFile. rewrite bind_run. cbn [emit].
    rewrite bind_call. destruct (read_file w (FilePath cfg)); cbn;
      rewrite ?fatal_run, ?extend_extend; reflexivity.
  - intros -> Hpiped. cbn [String.eqb negb]. unfold stdin_IsReadable.
    rewrite bind_call, Hpiped. unfold log, ioutil_ReadAll_Stdin.
    rewrite bind_run. cbn [emit]. rewrite bind_call.
    destruct (read_stdin w); cbn; rewrite ?fatal_run, ?extend_extend; reflexivity.
  - intros -> Hpiped. cbn [String.eqb negb]. unfold stdin_IsReadable.
    rewrite bind_call, Hpiped. unfold log. rewrite bind_run. cbn [emit].
    rewrite bind_run, stat_loop_run. cbn [app]. fold existing probes.
    split; [|split].
    + intros ->. cbn [length Nat.ltb Nat.leb]. rewrite fatal_run, !extend_extend.
      reflexivity.
    + intros Hmany. split; [|intros name; apply Join_lists_every_element].
      apply Nat.ltb_lt in Hmany. rewrite Hmany, fatal_run, !extend_extend.
      reflexivity.
    + intros found ->. cbn [length Nat.ltb Nat.leb]. unfold ioutil_ReadFile.
      rewrite bind_run. cbn [emit]. rewrite bind_call.
      destruct (read_file w found); cbn; rewrite ?fatal_run, ?extend_extend;
        unfold searching; rewrite <- ?app_assoc; reflexivity.
Qed.

End SourceProperties.

Ltac exec :=
  cbv beta iota zeta delta
    [bind call emit ret fatal log cliconfig_Load_call os_Stat ioutil_ReadFile
     stdin_IsReadable ioutil_ReadAll_Stdin git_rev_parse_Output PipelineParser_Parse
     json_Encoder_Encode redaction_GetValuesToRedact result_MarshalJSON].

Ltac split_cases :=
  repeat (case_match;
          rewrite ?stat_loop_run, ?scan_needles_run in *;
          simplify_eq).

(** ** The name of the source in the messages *)

Lemma source_name_Base (file : string) : source_name (path.Base file) = path.Base file.
Proof.
  unfold source_name.
  destruct (String.eqb_spec (path.Base file) EmptyString) as [H|]; [|reflexivity].
  now apply Base_nonempty in H.
Qed.

Ltac solve_origin :=
  unfold names_origin, origin, filepath.Base in *; rewrite ?source_name_Base;
  match goal with
  | H1 : negb _ = true |- _ => rewrite H1; eexists; split; reflexivity
  | H1 : negb _ = false, H5 : stdin_readable _ = true |- _ =>
      rewrite H1, H5; eexists; split; reflexivity
  | H1 : negb _ = false, H5 : stdin_readable _ = false,
    H7 : [] ++ _ = _ :: ?l, H6 : Nat.ltb _ _ = false |- _ =>
      destruct l; [|discriminate H6]; cbn [app] in H7; rewrite H1, H5, H7;
      eexists; split; reflexivity
  end.

Section NameProperties.

Context {Doc : Type} (w : World Doc).

Lemma prepare_names cfg :
  hoare (fun _ => True) (prepare w cfg)
        (fun r _ => names_origin w cfg (snd (fst r)))
        (fun msg _ => message_names_origin w cfg msg).
Proof.
  intros p _. unfold prepare, resolve_source, resolve_environ, parse_pipeline.
  exec. split_cases; cbn; try exact I; solve_origin.
Qed.

Lemma Action_after_load cfg :
  cliconfig_Load w = inr cfg ->
  PipelineUploadCommand w =
  bind (prepare w cfg)
       (fun r => let '(environ, src, result) := r in
                 if DryRun cfg then dry_run w result
                 else deliver w cfg environ src result)
       (extend start [LoadConfig None]).
Proof.
  intros Hload. unfold PipelineUploadCommand, Action, cliconfig_Load_call.
  rewrite bind_call, Hload. reflexivity.
Qed.

Lemma after_parse_names cfg environ src result :
  hoare (fun _ => names_origin w cfg src)
        (if DryRun cfg then dry_run w result else deliver w cfg environ src result)
        (fun _ _ => True)
        (fun msg _ => message_names_origin w cfg msg).
Proof.
  intros p Hsrc. destruct (DryRun cfg).
  - unfold dry_run. exec. split_cases; exact I.
  - unfold deliver, redaction_guard, leftover_stat_loop, check_job_and_token.
    exec. split_cases; cbn; try exact I; try exact Hsrc;
      match goal with
      | H : submit _ _ _ _ = (_, inl _) |- _ => apply submit_fails in H as [? ->]
      end; exact I.
Qed.

(** On a POSIX host the source name in the message of a failed parse, of
    a failed serialisation and of a redaction refusal is what
    [filepath.Base] makes of the file given on the command line, what
    [path.Base] makes of the default file found, and ["(stdin)"] when the
    pipeline was read from standard input. *)
Theorem messages_name_the_origin (cfg : PipelineUploadConfig) (src : string) :
  cliconfig_Load w = inr cfg ->
  (exists err, snd (PipelineUploadCommand w) = inl (ParseFailed src err)) \/
  (exists err, snd (PipelineUploadCommand w) = inl (SerialiseFailed src err)) \/
  snd (PipelineUploadCommand w) = inl (RedactedVarsFound src) ->
  exists o, origin w cfg = Some o /\ src = originName o.
Proof.
  intros Hload Hmsg. rewrite (Action_after_load cfg Hload) in Hmsg.
  assert (H : hoare (fun _ => True)
                (bind (prepare w cfg)
                   (fun r => let '(environ, src, result) := r in
                             if DryRun cfg then dry_run w result
                             else deliver w cfg environ src result))
                (fun _ _ => True) (fun msg _ => message_names_origin w cfg msg)).
  { eapply hoare_bind; [apply prepare_names|].
    intros [[environ src'] result]. apply after_parse_names. }
  specialize (H (extend start [LoadConfig None]) I).
  destruct (bind _ _ _) as [p [msg|[]]]; cbn in Hmsg.
  - destruct Hmsg as [[err Hm] | [[err Hm] | Hm]]; inversion Hm; subst msg; exact H.
  - destruct Hmsg as [[err Hm] | [[err Hm] | Hm]]; discriminate Hm.
Qed.

End NameProperties.

Lemma messages_name_the_origin_witness :
  cliconfig_Load Samples.leaking = inr (Samples.explicit_config false ["SECRET"]) /\
  snd (PipelineUploadCommand Samples.leaking) = inl (RedactedVarsFound "pipeline.yml") /\
  exists o, origin Samples.leaking (Samples.explicit_config false ["SECRET"]) = Some o /\
            "pipeline.yml" = originName o.
Proof.
  split; [reflexivity|]. split; [reflexivity|].
  exact (messages_name_the_origin Samples.leaking (Samples.explicit_config false ["SECRET"])
           "pipeline.yml" eq_refl (or_intror (or_intror eq_refl))).
Defined.

(** ** The name of a discovered file where the separator is not the slash *)

Section HostNames.

Context {Doc : Type} (w : World Doc).

Local Open Scope string_scope.

Lemma length_append (a b : string) :
  String.length (a ++ b) = (String.length a + String.length b)%nat.
Proof. induction a as [|c a IH]; [reflexivity|]. rewrite append_cons. cbn. now rewrite IH. Qed.

Lemma not_own_suffix (dir : string) (c : ascii) (name : string) :
  dir ++ String c name <> name.
Proof.
  intros H. apply (f_equal String.length) in H. rewrite length_append in H.
  cbn in H. lia.
Qed.

Local Open Scope list_scope.

(** The candidates on Windows. *)
Lemma windows_paths :
  host.paths host.windows =
  [ "buildkite.yml"; "buildkite.yaml"; "buildkite.json";
    ".buildkite\pipeline.yml"; ".buildkite\pipeline.yaml"; ".buildkite\pipeline.json";
    "buildkite\pipeline.yml"; "buildkite\pipeline.yaml"; "buildkite\pipeline.json" ]%string.
Proof. reflexivity. Qed.

(** Where the separator is the slash, the search is the third branch of
    [resolve_source]. *)
Lemma discover_posix cfg (p : Proc Doc) :
  FilePath cfg = EmptyString -> stdin_readable w = false ->
  resolve_source w cfg p = discover w path.slash (extend p [StdinIsReadable false]).
Proof.
  intros Hfile Hstdin. unfold resolve_source, discover. rewrite Hfile. cbn [String.eqb negb].
  unfold stdin_IsReadable. rewrite bind_call, Hstdin. reflexivity.
Qed.

(** [path.Base] leaves each of the Windows candidates as it is: none of
    them has a slash. *)
Lemma Base_windows_candidate (found : string) :
  found ∈ host.paths host.windows -> path.Base found = found.
Proof.
  rewrite windows_paths. intros H.
  repeat (apply elem_of_cons in H as [->|H]; [reflexivity|]).
  now apply elem_of_nil in H.
Qed.

(** C10. On Windows the claim fails for a default file found in a
    directory. When the search of lines 151-191 returns, exactly one of
    the candidates exists and [filename] (line 187) is that candidate as
    it was built, directory and backslash included, because [path.Base]
    splits at slashes only; the source name of lines 214-217 is the same
    text, and it is what the message of a failed parse (line 227) shows.
    It is never the base filename of the file found, and six of the nine
    candidates have one. *)
Theorem discovered_file_is_named_by_its_path
    (p p' : Proc Doc) (filename input : string) :
  discover w host.windows p = (p', inr (filename, input)) ->
  List.filter (stat_ok w) (host.paths host.windows) = [filename] /\
  read_file w filename = inr input /\
  source_name filename = filename /\
  (forall cfg environ err q,
     parser_Parse w environ filename input (NoInterpolation cfg) = inl err ->
     snd (parse_pipeline w cfg environ filename input q)
     = inl (ParseFailed filename err)) /\
  (forall name,
     host.base_filename host.windows filename name -> source_name filename <> name) /\
  (filename ∈ drop 3 (host.paths host.windows) ->
   exists name, host.base_filename host.windows filename name).
Proof.
  unfold discover. exec. rewrite stat_loop_run. cbn [app].
  destruct (List.filter (stat_ok w) (host.paths host.windows)) as [|found [|more l]] eqn:Hl;
    cbn [length Nat.ltb Nat.leb fst snd trace extend]; try discriminate.
  assert (Hin : found ∈ host.paths host.windows).
  { apply list_elem_of_In. apply (proj1 (filter_In (stat_ok w) found _)).
    rewrite Hl. now left. }
  rewrite (Base_windows_candidate found Hin).
  destruct (read_file w found) as [err|content] eqn:Hread; cbn [err_of]; [discriminate|].
  intros [= _ <- <-].
  assert (Hsrc : source_name found = found).
  { revert Hin. rewrite windows_paths. intros H.
    repeat (apply elem_of_cons in H as [->|H]; [reflexivity|]).
    now apply elem_of_nil in H. }
  split; [reflexivity|]. split; [exact Hread|]. split; [exact Hsrc|].
  split; [|split].
  - intros cfg environ err q Hparse. unfold parse_pipeline. exec.
    rewrite Hparse, Hsrc. reflexivity.
  - intros name (_ & _ & _ & dir & Hdir). rewrite Hsrc, Hdir.
    apply not_own_suffix.
  - rewrite windows_paths. cbn [drop]. intros H.
    repeat (apply elem_of_cons in H as [->|H];
            [first [ exists "pipeline.yml"%string; repeat split; try discriminate;
                     first [now exists ".buildkite"%string | now exists "buildkite"%string]
                   | exists "pipeline.yaml"%string; repeat split; try discriminate;
                     first [now exists ".buildkite"%string | now exists "buildkite"%string]
                   | exists "pipeline.json"%string; repeat split; try discriminate;
                     first [now exists ".buildkite"%string | now exists "buildkite"%string] ]|]).
    now apply elem_of_nil in H.
Qed.

End HostNames.

Lemma discovered_file_is_named_by_its_path_witness :
  let w := Samples.windows_checkout in
  let found := ".buildkite\pipeline.yml"%string in
  let text := "steps: [make test"%string in
  (exists p', discover w host.windows start = (p', inr (found, text))) /\
  List.filter (stat_ok w) (host.paths host.windows) = [found] /\
  read_file w found = inr text /\
  source_name found = found /\
  (forall cfg environ err q,
     parser_Parse w environ found text (NoInterpolation cfg) = inl err ->
     snd (parse_pipeline w cfg environ found text q) = inl (ParseFailed found err)) /\
  (forall name,
     host.base_filename host.windows found name -> source_name found <> name) /\
  (found ∈ drop 3 (host.paths host.windows) ->
   exists name, host.base_filename host.windows found name).
Proof.
  intros w found text.
  assert (H : discover w host.windows start
              = (fst (discover w host.windows start), inr (found, text)))
    by (vm_compute; reflexivity).
  split; [eexists; exact H|].
  exact (discovered_file_is_named_by_its_path w start _ found text H).
Defined.

(** ** After the parse: dry run, redaction, job and token *)

Section AfterParse.

Context {Doc : Type} (w : World Doc).

Lemma parsed_run cfg p0 environ src result :
  parsed w cfg p0 environ src result ->
  PipelineUploadCommand w =
  (if DryRun cfg then dry_run w result else deliver w cfg environ src result) p0.
Proof.
  intros [Hload Hprep]. rewrite (Action_after_load w cfg Hload), bind_run, Hprep.
  reflexivity.
Qed.

(** Up to the parse nothing is uploaded and nothing is checked for
    redacted values. *)
Lemma parsed_preparing cfg p0 environ src result :
  parsed w cfg p0 environ src result ->
  forallb preparing (trace p0) = true.
Proof.
  intros [_ Hprep].
  destruct (prepare_preparing w cfg (extend start [LoadConfig None])) as (es & H & Hes).
  rewrite Hprep in H. cbn [fst] in H. subst p0. cbn. exact Hes.
Qed.

Lemma preparing_silent (tr : list (Event Doc)) :
  forallb preparing tr = true ->
  attempts tr = 0 /\ count is_redaction tr = 0.
Proof.
  induction tr as [|e tr IH]; [easy|]. cbn [forallb]. intros [He Htr]%andb_prop.
  destruct (IH Htr) as [H1 H2]. unfold attempts, count in *.
  destruct e; try discriminate He; cbn; auto.
Qed.

Lemma count_app f (a b : list (Event Doc)) : count f (a ++ b) = count f a + count f b.
Proof. unfold count. now rewrite List.filter_app, length_app. Qed.


End AfterParse.


Section DryRunProperties.

Context {Doc : Type} (w : World Doc).

(** C7, as amended. In a dry run whose parse succeeded, the only thing
    that follows the parse is the encoding of the pipeline to standard
    output: when it succeeds the command returns normally, when it fails
    the command exits through [l.Fatal]; either way no redaction check is
    made and no upload request is sent. *)
Theorem dry_run_ends_after_encoding cfg p0 environ src result :
  parsed w cfg p0 environ src result ->
  DryRun cfg = true ->
  PipelineUploadCommand w =
    match json_Encode w result with
    | inr out => (extend p0 [EncodeStdout (inr out)], inr tt)
    | inl err =>
        (extend p0 [EncodeStdout (inl err); Log Fatal (EncodeFailed err)],
         inl (EncodeFailed err))
    end /\
  attempts (trace (fst (PipelineUploadCommand w))) = 0 /\
  count is_redaction (trace (fst (PipelineUploadCommand w))) = 0.
Proof.
  intros Hparsed Hdry.
  pose proof (parsed_preparing _ _ _ _ _ _ Hparsed) as Hprep.
  apply preparing_silent in Hprep as [Hup Hred].
  rewrite (parsed_run _ _ _ _ _ _ Hparsed), Hdry. unfold dry_run. exec.
  destruct (json_Encode w result) as [err|out]; cbn [fst trace extend];
    rewrite ?extend_extend; (split; [reflexivity|]);
    cbn [trace extend]; unfold attempts in *; rewrite !count_app, Hup, Hred;
    split; reflexivity.
Qed.

(** C8. Without a job id or without an access token, an invocation that
    is not a dry run always exits through [l.Fatal] and never sends an
    upload request; when it gets as far as the check, after the parse and
    the redaction guard, the message is the one for the missing job or
    the missing token. *)
Theorem missing_job_or_token_is_fatal cfg :
  cliconfig_Load w = inr cfg ->
  DryRun cfg = false ->
  Job cfg = EmptyString \/ AgentAccessToken cfg = EmptyString ->
  (exists msg, snd (PipelineUploadCommand w) = inl msg) /\
  attempts (trace (fst (PipelineUploadCommand w))) = 0 /\
  (forall p0 environ src result p1,
     parsed w cfg p0 environ src result ->
     redaction_guard w cfg environ result src p0 = (p1, inr tt) ->
     snd (PipelineUploadCommand w) =
     inl (if String.eqb (Job cfg) EmptyString then MissingJob else MissingToken)).
Proof.
  intros Hload Hdry Hmissing.
  assert (Htail : forall environ src result,
            hoare (fun tr => forallb quiet tr = true)
                  (deliver w cfg environ src result)
                  (fun _ _ => False) (fun _ tr => forallb quiet tr = true)).
  { intros environ src result p HP.
    unfold deliver, redaction_guard, leftover_stat_loop, check_job_and_token.
    destruct Hmissing as [H | H]; rewrite H; exec; split_cases;
      cbn [fst trace extend]; rewrite <- ?app_assoc, ?forallb_app, ?HP; reflexivity. }
  assert (Hrun : hoare (fun tr => forallb quiet tr = true)
                   (bind (prepare w cfg)
                      (fun r => let '(environ, src, result) := r in
                                if DryRun cfg then dry_run w result
                                else deliver w cfg environ src result))
                   (fun _ _ => False) (fun _ tr => forallb quiet tr = true)).
  { apply hoare_bind with (Q := fun _ tr => forallb quiet tr = true).
    - eapply hoare_conseq; [apply emits_hoare, prepare_quiet | auto..].
    - intros [[environ src] result]. rewrite Hdry. apply Htail. }
  specialize (Hrun (extend start [LoadConfig None]) eq_refl).
  rewrite <- (Action_after_load w cfg Hload) in Hrun.
  split; [|split].
  - destruct (PipelineUploadCommand w) as [p [msg|[]]]; [now exists msg | contradiction].
  - destruct (PipelineUploadCommand w) as [p [msg|[]]]; [|contradiction].
    now apply quiet_silent in Hrun.
  - intros p0 environ src result p1 Hparsed Hguard.
    rewrite (parsed_run _ _ _ _ _ _ Hparsed), Hdry. unfold deliver.
    rewrite bind_run, Hguard. unfold leftover_stat_loop, check_job_and_token.
    exec. rewrite stat_loop_run.
    destruct (String.eqb (Job cfg) EmptyString) eqn:Ej; [reflexivity|].
    destruct Hmissing as [H | H]; [rewrite H in Ej; discriminate|].
    rewrite H. reflexivity.
Qed.

End DryRunProperties.

(** C7, as stated, fails: with standard output closed the encoder returns
    an error and the dry run exits through [l.Fatal]. *)
Lemma dry_run_can_exit_fatally :
  ~ (forall (w : World string) cfg p0 environ src result,
       parsed w cfg p0 environ src result ->
       DryRun cfg = true ->
       snd (PipelineUploadCommand w) = inr tt).
Proof.
  intros Hall.
  specialize (Hall Samples.dry_closed_stdout (Samples.explicit_config true [])
                (fst (prepare Samples.dry_closed_stdout (Samples.explicit_config true [])
                        (extend start [LoadConfig None])))
                Samples.env_secret "pipeline.yml" "steps: [make test]"
                (conj eq_refl eq_refl) eq_refl).
  discriminate Hall.
Qed.

Lemma dry_run_ends_after_encoding_witness :
  let w := Samples.dry in
  let cfg := Samples.explicit_config true ["SECRET"] in
  let doc := "steps: [make test]" in
  let p0 := fst (prepare w cfg (extend start [LoadConfig None])) in
  parsed w cfg p0 Samples.env_secret "pipeline.yml" doc /\
  DryRun cfg = true /\
  PipelineUploadCommand w = (extend p0 [EncodeStdout (inr doc)], inr tt) /\
  attempts (trace (fst (PipelineUploadCommand w))) = 0 /\
  count is_redaction (trace (fst (PipelineUploadCommand w))) = 0.
Proof.
  intros w cfg doc p0.
  assert (Hparsed : parsed w cfg p0 Samples.env_secret "pipeline.yml" doc)
    by (split; reflexivity).
  split; [exact Hparsed|]. split; [reflexivity|].
  exact (dry_run_ends_after_encoding w cfg p0 Samples.env_secret "pipeline.yml" doc
           Hparsed eq_refl).
Defined.

Lemma missing_job_or_token_is_fatal_witness :
  let w := Samples.jobless in
  let cfg := Samples.config "ci/pipeline.yml" EmptyString "token-1" false [] in
  cliconfig_Load w = inr cfg /\
  DryRun cfg = false /\
  (Job cfg = EmptyString \/ AgentAccessToken cfg = EmptyString) /\
  (exists msg, snd (PipelineUploadCommand w) = inl msg) /\
  attempts (trace (fst (PipelineUploadCommand w))) = 0.
Proof.
  intros w cfg.
  destruct (missing_job_or_token_is_fatal w cfg eq_refl eq_refl (or_introl eq_refl))
    as (Hfatal & Hnone & _).
  repeat split; try reflexivity; [now left | exact Hfatal].
Defined.

Lemma source_precedence_witness :
  let w := Samples.discovering in
  let cfg := Samples.config EmptyString "job-1" "token-1" false [] in
  FilePath cfg = EmptyString /\
  stdin_readable w = false /\
  List.filter (stat_ok w) paths = [".buildkite/pipeline.yml"] /\
  snd (resolve_source w cfg start) = inr ("pipeline.yml", "steps: [make test]").
Proof.
  intros w cfg. split; [reflexivity|]. split; [reflexivity|]. split; [reflexivity|].
  destruct (source_precedence w cfg start) as (_ & _ & _ & Hsearch).
  destruct (Hsearch eq_refl eq_refl) as (_ & _ & Hone).
  rewrite (Hone ".buildkite/pipeline.yml" eq_refl). reflexivity.
Defined.

(** ** The second loop over the default locations *)

Section Leftover.

Context {Doc : Type} (w : World Doc).

(** Whatever the source was, once the redaction guard lets the run pass,
    the nine default locations are asked for, and only then are job and
    token checked. *)
Lemma stat_loop_follows_redaction_guard cfg p0 environ src result p1 :
  parsed w cfg p0 environ src result ->
  DryRun cfg = false ->
  redaction_guard w cfg environ result src p0 = (p1, inr tt) ->
  PipelineUploadCommand w =
  (check_job_and_token cfg ;;; submit w cfg result)
    (extend p1 (map (fun name => Stat name (stat_ok w name)) paths)).
Proof.
  intros Hparsed Hdry Hguard.
  rewrite (parsed_run _ _ _ _ _ _ Hparsed), Hdry. unfold deliver.
  rewrite bind_run, Hguard. unfold leftover_stat_loop. rewrite !bind_run, stat_loop_run.
  reflexivity.
Qed.

End Leftover.

(** C5. The pipeline is read from the file given on the command line, the
    value of SECRET does not occur in it, and between the redaction check
    and the upload the run asks the file system for each of the nine
    default locations. *)
Theorem stat_loop_after_redaction_check :
  let w := Samples.guarded in
  let tr := trace (fst (PipelineUploadCommand w)) in
  origin w (Samples.explicit_config false ["SECRET"]) = Some (explicit "ci/pipeline.yml") /\
  snd (PipelineUploadCommand w) = inr tt /\
  count is_stat tr = 9 /\
  exists pre post,
    tr = pre ++ [GetValuesToRedact ["SECRET"]; MarshalJSON None]
             ++ map (fun name => Stat name false) paths
             ++ NewUUID "A-uuid" :: post.
Proof.
  intros w tr. split; [reflexivity|]. split; [reflexivity|]. split; [reflexivity|].
  exists (take 6 tr), (drop 18 tr). reflexivity.
Qed.

(** ** Failures the command recovers from *)

Section Recovery.

Context {Doc : Type} (w : World Doc).

Local Abbreviation benign_all := (fun tr : list (Event Doc) => forallb benign tr = true).
Local Abbreviation fatal_end :=
  (fun (_ : Msg) (tr : list (Event Doc)) => ends_fatally tr = true).

Lemma ends_fatally_app (a b : list (Event Doc)) :
  forallb benign a = true -> ends_fatally (a ++ b) = ends_fatally b.
Proof.
  induction a as [|e a IH]; [reflexivity|].
  cbn [forallb app ends_fatally]. intros [He Ha]%andb_true_iff.
  rewrite He. auto.
Qed.

Lemma ends_fatally_benign (a : list (Event Doc)) :
  forallb benign a = true -> ends_fatally a = true.
Proof.
  intros Ha. rewrite <- (app_nil_r a), (ends_fatally_app _ _ Ha). reflexivity.
Qed.

Lemma log_benign (e : Event Doc) : is_log e = true -> benign e = true.
Proof. destruct e; cbn; intros H; try discriminate H; reflexivity. Qed.

Lemma ends_fatally_split (pre : list (Event Doc)) e post :
  ends_fatally (pre ++ e :: post) = true -> benign e = false ->
  forallb is_log post = true.
Proof.
  induction pre as [|a pre IH]; cbn [app ends_fatally]; intros H He.
  - now rewrite He in H.
  - destruct (benign a); [auto|].
    rewrite forallb_app in H. apply andb_true_iff in H as [_ H].
    cbn [forallb] in H. apply andb_true_iff in H as [Hlog _].
    apply log_benign in Hlog. congruence.
Qed.

(** The failed calls among the events the command goes on after. *)
Lemma benign_failure (e : Event Doc) :
  failed_call e = true -> benign e = true ->
  (exists commitRef err, e = GitRevParse commitRef (Some err)) \/
  (exists name, e = Stat name false) \/
  (exists job pl err,
     e = UploadPipeline job pl (Some err) /\ is_unprocessable err = false).
Proof.
  destruct e as [| f | name found | name f | | f | commitRef f | name f
                 | out | | f | | job pl f |]; cbn;
    try destruct found; try destruct f; try destruct out; cbn;
    intros Hf Hb; try discriminate.
  - right. left. now eexists.
  - left. now eexists _, _.
  - right. right. eexists _, _, _. split; [reflexivity|]. now apply negb_true_iff.
Qed.

Lemma loop_run_benign interval u n (es : list (Event Doc)) :
  loop_run interval u n es None -> forallb benign es = true.
Proof.
  remember None as r eqn:Hr. induction 1; try discriminate; cbn.
  - reflexivity.
  - match goal with H : is_unprocessable _ = false |- _ => rewrite H end. cbn. auto.
Qed.

(** A loop that gives up: the refused request is followed by log lines
    only, and a sixtieth failure is one the loop would have retried. *)
Lemma loop_run_ends_fatally interval u n (es : list (Event Doc)) err :
  loop_run interval u n es (Some err) ->
  ends_fatally (es ++ [Log Fatal (UploadFailed err)]) = true.
Proof.
  remember (Some err) as r eqn:Hr. induction 1; try discriminate;
    cbn [app ends_fatally benign failure_of forallb is_log];
    repeat match goal with H : is_unprocessable _ = _ |- _ => rewrite H end;
    cbn [negb]; auto.
Qed.

Ltac benign_leaves HP :=
  exec; split_cases;
  cbn [fst trace extend err_of]; rewrite <- ?app_assoc;
  first [ rewrite ?forallb_app, ?HP; reflexivity
        | rewrite (ends_fatally_app _ _ HP); reflexivity ].

Lemma prepare_benign cfg :
  hoare benign_all (prepare w cfg) (fun _ => benign_all) fatal_end.
Proof.
  intros p HP. unfold prepare, resolve_source, resolve_environ, parse_pipeline.
  benign_leaves HP.
Qed.

Lemma dry_run_benign result :
  hoare benign_all (dry_run w result) (fun _ => benign_all) fatal_end.
Proof. intros p HP. unfold dry_run. benign_leaves HP. Qed.

Lemma before_submit_benign cfg environ src result :
  hoare benign_all
        (redaction_guard w cfg environ result src ;;; leftover_stat_loop w ;;;
         check_job_and_token cfg)
        (fun _ => benign_all) fatal_end.
Proof.
  intros p HP. unfold redaction_guard, leftover_stat_loop, check_job_and_token.
  benign_leaves HP.
Qed.

Lemma submit_benign cfg result :
  hoare benign_all (submit w cfg result) (fun _ => benign_all) fatal_end.
Proof.
  intros p HP. destruct (submit_run w cfg result p) as (es & res & p' & Hrun & Htr & Hloop).
  rewrite Hrun. destruct res as [e|]; cbn [exit_of closing] in *; rewrite Htr.
  - rewrite (ends_fatally_app _ _ HP). cbn [ends_fatally benign failure_of].
    exact (loop_run_ends_fatally _ _ _ _ _ Hloop).
  - change (NewUUID ?u :: ?l) with ([NewUUID u] ++ l).
    rewrite !forallb_app, HP, (loop_run_benign _ _ _ _ Hloop). reflexivity.
Qed.

Lemma deliver_assoc cfg environ src result (p : Proc Doc) :
  deliver w cfg environ src result p =
  bind (redaction_guard w cfg environ result src ;;; leftover_stat_loop w ;;;
        check_job_and_token cfg)
       (fun _ => submit w cfg result) p.
Proof.
  unfold deliver. rewrite !bind_run.
  destruct (redaction_guard w cfg environ result src p) as [p1 [msg|[]]]; [reflexivity|].
  rewrite !bind_run. destruct (leftover_stat_loop w p1) as [p2 [msg|[]]]; [reflexivity|].
  rewrite !bind_run. destruct (check_job_and_token cfg p2) as [p3 [msg|[]]]; reflexivity.
Qed.

(** A run that returns went on after each of its events; in a run that
    exits, the first event it did not go on after is followed by log
    lines only. *)
Lemma Action_benign :
  hoare benign_all (Action w) (fun _ => benign_all) fatal_end.
Proof.
  unfold Action.
  apply hoare_bind with
    (Q := fun (c : error + PipelineUploadConfig) tr =>
            match c with
            | inl err => exists pre, tr = pre ++ [LoadConfig (Some err)] /\
                                     forallb benign pre = true
            | inr _ => forallb benign tr = true
            end).
  { intros p HP. unfold cliconfig_Load_call. exec.
    destruct (cliconfig_Load w); cbn [fst trace extend err_of].
    - now exists (trace p).
    - now rewrite forallb_app, HP. }
  intros [err|cfg].
  { intros p (pre & Htr & Hpre). exec. cbn [fst trace extend].
    rewrite Htr, <- app_assoc, (ends_fatally_app _ _ Hpre). reflexivity. }
  apply hoare_bind with (Q := fun _ => benign_all); [apply prepare_benign|].
  intros [[environ src] result].
  destruct (DryRun cfg); [apply dry_run_benign|].
  eapply hoare_ext; [intros p; apply deliver_assoc|].
  apply hoare_bind with (Q := fun _ => benign_all); [apply before_submit_benign|].
  intros _. apply submit_benign.
Qed.

(** C9, as amended. When BUILDKITE_COMMIT is set, [git rev-parse] is
    asked once: on success the variable is overwritten with the trimmed
    output, on failure a warning is logged and the environment is left as
    it was; either way the step returns and that environment is the one
    the parser gets. Of the calls that return an error, the command goes
    on after three kinds only: this one, an [os.Stat] of the two loops
    over the default locations (the error is dropped), and an upload
    request that fails with something other than 422. Whenever any other
    call of an invocation returns an error, nothing but log lines follows
    it and the invocation exits through [l.Fatal]. *)
Theorem revision_failure_is_recovered :
  let resolved :=
    match os_Environ w !! "BUILDKITE_COMMIT" with
    | None => os_Environ w
    | Some commitRef =>
        match git_rev_parse w commitRef with
        | inr cmdOut => <["BUILDKITE_COMMIT" := strings.TrimSpace cmdOut]> (os_Environ w)
        | inl _ => os_Environ w
        end
    end in
  (forall p,
     resolve_environ w p =
     (extend p match os_Environ w !! "BUILDKITE_COMMIT" with
               | None => []
               | Some commitRef =>
                   match git_rev_parse w commitRef with
                   | inr cmdOut =>
                       [GitRevParse commitRef None;
                        Log Info (UpdatingCommit (strings.TrimSpace cmdOut))]
                   | inl err =>
                       [GitRevParse commitRef (Some err);
                        Log Warn (RevParseFailed commitRef err)]
                   end
               end,
      inr resolved)) /\
  (forall cfg p0 environ src result,
     parsed w cfg p0 environ src result -> environ = resolved) /\
  (forall pre e post,
     trace (fst (PipelineUploadCommand w)) = pre ++ e :: post ->
     failed_call e = true ->
     (exists commitRef err, e = GitRevParse commitRef (Some err)) \/
     (exists name, e = Stat name false) \/
     (exists job pl err,
        e = UploadPipeline job pl (Some err) /\ is_unprocessable err = false) \/
     (forallb is_log post = true /\
      exists msg, snd (PipelineUploadCommand w) = inl msg)).
Proof.
  intros resolved. split; [|split].
  - intros p. unfold resolve_environ, resolved. exec.
    destruct (os_Environ w !! "BUILDKITE_COMMIT") as [commitRef|];
      [|now rewrite extend_nil].
    destruct (git_rev_parse w commitRef); cbn [err_of]; now rewrite extend_extend.
  - intros cfg p0 environ src result [_ Hprep]. revert Hprep.
    unfold prepare, resolve_source, resolve_environ, parse_pipeline, resolved.
    exec. split_cases; intros; simplify_eq; reflexivity.
  - intros pre e post Htr Hfail.
    destruct (benign e) eqn:Hb.
    { destruct (benign_failure e Hfail Hb) as [H|[H|H]]; auto. }
    right. right. right.
    pose proof (Action_benign start eq_refl) as H.
    unfold PipelineUploadCommand in *.
    destruct (Action w start) as [p [msg|[]]]; cbn [fst snd] in *.
    + rewrite Htr in H. split; [exact (ends_fatally_split _ _ _ H Hb)|now exists msg].
    + rewrite Htr, forallb_app in H. apply andb_true_iff in H as [_ H].
      cbn [forallb] in H. apply andb_true_iff in H as [H _]. congruence.
Qed.

End Recovery.

(** C9, as stated, fails: the revision is not the only failure the
    command survives. Here no default file exists, so every [os.Stat] of
    the second loop returns an error, and the first three upload requests
    fail with status 500; the command goes on after each of them and
    returns normally. *)
Lemma retried_upload_error_is_not_fatal :
  ~ (forall (w : World string) e,
       e ∈ trace (fst (PipelineUploadCommand w)) ->
       failed_call e = true ->
       snd (PipelineUploadCommand w) = inr tt ->
       exists commitRef err, e = GitRevParse commitRef (Some err)).
Proof.
  intros Hall.
  destruct (Hall Samples.flaky_server
              (UploadPipeline "job-1"
                 {| UUID := "A-uuid"; Document := "steps: [make test]";
                    ReplaceSteps := false |}
                 (Some Samples.server_error))) as (commitRef & err & H).
  - apply list_elem_of_In. vm_compute. tauto.
  - reflexivity.
  - reflexivity.
  - discriminate H.
Qed.

Lemma revision_failure_is_recovered_witness :
  let w := Samples.rejecting_server in
  let tr := trace (fst (PipelineUploadCommand w)) in
  let e := UploadPipeline (Doc := string) "job-1"
             {| UUID := "A-uuid"; Document := "steps: [make test]";
                ReplaceSteps := false |}
             (Some Samples.unprocessable) in
  let pre := take (length tr - 4) tr in
  let post := drop (length tr - 3) tr in
  tr = pre ++ e :: post /\
  failed_call e = true /\
  ((exists commitRef err, e = GitRevParse commitRef (Some err)) \/
   (exists name, e = Stat name false) \/
   (exists job pl err,
      e = UploadPipeline job pl (Some err) /\ is_unprocessable err = false) \/
   (forallb is_log post = true /\
    exists msg, snd (PipelineUploadCommand w) = inl msg)).
Proof.
  intros w tr e pre post.
  assert (Htr : tr = pre ++ e :: post) by (vm_compute; reflexivity).
  split; [exact Htr|]. split; [reflexivity|].
  destruct (revision_failure_is_recovered w) as (_ & _ & Hrec).
  exact (Hrec pre e post Htr eq_refl).
Defined.

(** ** The cases of a run *)

Section RunCases.

Context {Doc : Type} (w : World Doc).

Lemma retry_loop_requests cfg u result (n : nat) :
  forall (s : retry.Stats) (last : option error) (p : Proc Doc),
    exists es,
      trace (fst (retry_loop (upload_callback w cfg u result) n s last p)) = trace p ++ es /\
      Forall (request_of cfg u result) es.
Proof.
  induction n as [|n IH]; intros s last p.
  { exists []. cbn. now rewrite app_nil_r. }
  rewrite retry_loop_step, upload_callback_run.
  destruct (api_UploadPipeline w _ _ _) as [e|].
  - destruct (is_unprocessable e).
    + eexists. cbn. rewrite <- app_assoc. split; [reflexivity|].
      repeat constructor.
    + destruct (retry.breakOut s).
      * eexists. cbn. rewrite <- app_assoc. split; [reflexivity|]. repeat constructor.
      * match goal with
        | |- context [retry_loop _ n ?s' ?l ?q] =>
            destruct (IH s' l q) as (es & Htr & Hes)
        end.
        rewrite Htr. destruct n; cbn; rewrite <- !app_assoc;
          (eexists; split; [reflexivity|]); repeat constructor; exact Hes.
  - eexists. cbn. split; [reflexivity|]. repeat constructor.
Qed.

(** The upload step: the UUID, the loop with its requests, the closing
    line. *)
Lemma submit_requests cfg result (p : Proc Doc) :
  exists es res p',
    submit w cfg result p = (p', exit_of res) /\
    trace p' = trace p ++ NewUUID (api_NewUUID w (uuids p)) :: es ++ [closing res] /\
    loop_run 5 (api_NewUUID w (uuids p)) 60 es res /\
    Forall (request_of cfg (api_NewUUID w (uuids p)) result) es.
Proof.
  unfold submit, retry_Do. rewrite bind_run. cbn [api_NewUUID_call]. rewrite bind_run.
  match goal with
  | |- context [retry_loop ?cb (retry.Maximum _) ?s ?l ?q] =>
      destruct (retry_loop_run w cfg (api_NewUUID w (uuids p)) result 59 s l q eq_refl)
        as (es & r & p' & Hrun & Htr & Hloop);
      destruct (retry_loop_requests cfg (api_NewUUID w (uuids p)) result 60 s l q)
        as (es' & Htr' & Hes')
  end.
  cbn [retry.Maximum upload_retry_config] in *. rewrite Hrun in Htr' |- *.
  cbn [fst] in Htr'. rewrite Htr in Htr'. apply app_inv_head in Htr'. subst es'.
  exists es, r. destruct r as [e|]; cbn; eexists; (split; [reflexivity|]);
    (split; [|split; [exact Hloop | exact Hes']]);
    cbn; rewrite Htr; cbn; rewrite <- !app_assoc; reflexivity.
Qed.

(** How an invocation can go: the configuration does not load; the
    steps up to the parse exit; a dry run; the checks before the upload
    exit; the upload. *)
Lemma run_cases :
  (exists err,
     cliconfig_Load w = inl err /\
     PipelineUploadCommand w =
       (extend start [LoadConfig (Some err); Log Fatal (LoadFailed err)],
        inl (LoadFailed err))) \/
  (exists cfg p msg,
     cliconfig_Load w = inr cfg /\
     prepare w cfg loaded = (p, inl msg) /\
     PipelineUploadCommand w = (p, inl msg)) \/
  (exists cfg p0 environ src result,
     parsed w cfg p0 environ src result /\ DryRun cfg = true /\
     PipelineUploadCommand w = dry_run w result p0) \/
  (exists cfg p0 environ src result p msg,
     parsed w cfg p0 environ src result /\ DryRun cfg = false /\
     checks w cfg environ src result p0 = (p, inl msg) /\
     PipelineUploadCommand w = (p, inl msg)) \/
  (exists cfg p0 environ src result p1 u es res,
     parsed w cfg p0 environ src result /\ DryRun cfg = false /\
     checks w cfg environ src result p0 = (p1, inr tt) /\
     trace (fst (PipelineUploadCommand w)) = trace p1 ++ NewUUID u :: es ++ [closing res] /\
     loop_run 5 u 60 es res /\
     Forall (request_of cfg u result) es /\
     snd (PipelineUploadCommand w) = exit_of res).
Proof.
  destruct (cliconfig_Load w) as [err|cfg] eqn:Hload.
  { left. exists err. split; [reflexivity|].
    unfold PipelineUploadCommand, Action, cliconfig_Load_call.
    rewrite bind_call, Hload. reflexivity. }
  right. rewrite (Action_after_load w cfg Hload), bind_run. fold (@loaded Doc).
  destruct (prepare w cfg loaded) as [p0 [msg|[[environ src] result]]] eqn:Hprep.
  { left. exists cfg, p0, msg. auto. }
  right. assert (Hparsed : parsed w cfg p0 environ src result) by (split; assumption).
  destruct (DryRun cfg) eqn:Hdry.
  { left. exists cfg, p0, environ, src, result. auto. }
  right. rewrite deliver_assoc, bind_run. fold (checks w cfg environ src result).
  destruct (checks w cfg environ src result p0) as [p1 [msg|[]]] eqn:Hchecks.
  { left. exists cfg, p0, environ, src, result, p1, msg. auto. }
  right. destruct (submit_requests cfg result p1) as (es & res & p' & Hrun & Htr & Hloop & Hreq).
  exists cfg, p0, environ, src, result, p1, (api_NewUUID w (uuids p1)), es, res.
  rewrite Hrun. auto 10.
Qed.

Lemma parsed_functional cfg p0 environ src result cfg' p0' environ' src' result' :
  parsed w cfg p0 environ src result ->
  parsed w cfg' p0' environ' src' result' ->
  cfg' = cfg /\ p0' = p0 /\ environ' = environ /\ src' = src /\ result' = result.
Proof.
  intros [Hl Hp] [Hl' Hp']. rewrite Hl in Hl'. inversion Hl'; subst cfg'.
  rewrite Hp in Hp'. inversion Hp'. auto.
Qed.

End RunCases.

(** ** Events that never occur *)

Section Everywhere.

Context {Doc : Type} (w : World Doc) (E : Event Doc -> bool).

Lemma emits_trace {A} (m : M Doc A) (p : Proc Doc) :
  emits E m ->
  exists es, trace (fst (m p)) = trace p ++ es /\ forallb E es = true.
Proof. intros Hm. destruct (Hm p) as (es & H & Hes). exists es. now rewrite H. Qed.

Lemma loop_run_forall interval u n (es : list (Event Doc)) r :
  (forall job pl a, E (UploadPipeline job pl a) = true) ->
  (forall e s, E (Log Warn (UploadWarning e s)) = true) ->
  E (Log Error Unrecoverable) = true ->
  E (Sleep interval) = true ->
  loop_run interval u n es r -> forallb E es = true.
Proof.
  intros Hup Hwarn Herr Hsleep. induction 1; cbn; rewrite ?Hup, ?Hwarn, ?Herr, ?Hsleep; auto.
Qed.

(** If [E] holds of every event each step can produce, it holds of every
    event of every invocation. *)
Lemma whole_run_forall :
  (forall o, E (LoadConfig o) = true) ->
  (forall err, E (Log Fatal (LoadFailed err)) = true) ->
  (forall cfg, cliconfig_Load w = inr cfg -> emits E (prepare w cfg)) ->
  (forall cfg result,
     cliconfig_Load w = inr cfg -> DryRun cfg = true -> emits E (dry_run w result)) ->
  (forall cfg environ src result,
     cliconfig_Load w = inr cfg -> DryRun cfg = false ->
     emits E (checks w cfg environ src result)) ->
  (forall u, E (NewUUID u) = true) ->
  (forall job pl a, E (UploadPipeline job pl a) = true) ->
  (forall e s, E (Log Warn (UploadWarning e s)) = true) ->
  E (Log Error Unrecoverable) = true ->
  E (Sleep 5) = true ->
  (forall res, E (closing res) = true) ->
  forallb E (trace (fst (PipelineUploadCommand w))) = true.
Proof.
  intros Hload Hloadfail Hprep Hdry Hchecks Huuid Hup Hwarn Herr Hsleep Hclose.
  destruct (run_cases w) as
    [(err & _ & ->) | [(cfg & p & msg & Hl & Hp & ->) |
     [(cfg & p0 & environ & src & result & [Hl Hp] & Hd & ->) |
      [(cfg & p0 & environ & src & result & p & msg & [Hl Hp] & Hd & Hc & ->) |
       (cfg & p0 & environ & src & result & p1 & u & es & res & [Hl Hp] & Hd & Hc
          & -> & Hloop & _)]]]];
    unfold loaded in *.
  - cbn. now rewrite Hload, Hloadfail.
  - destruct (emits_trace (prepare w cfg) (extend start [LoadConfig None]) (Hprep cfg Hl)) as (es & Htr & Hes).
    rewrite Hp in Htr. cbn [fst] in *. rewrite Htr, forallb_app, Hes. cbn. now rewrite Hload.
  - destruct (emits_trace (prepare w cfg) (extend start [LoadConfig None]) (Hprep cfg Hl)) as (es & Htr & Hes).
    rewrite Hp in Htr. cbn [fst] in Htr.
    destruct (emits_trace (dry_run w result) p0 (Hdry cfg result Hl Hd)) as (es' & Htr' & Hes').
    rewrite Htr', Htr, !forallb_app, Hes, Hes'. cbn. now rewrite Hload.
  - destruct (emits_trace (prepare w cfg) (extend start [LoadConfig None]) (Hprep cfg Hl)) as (es & Htr & Hes).
    rewrite Hp in Htr. cbn [fst] in Htr.
    destruct (emits_trace (checks w cfg environ src result) p0
                (Hchecks cfg environ src result Hl Hd)) as (es' & Htr' & Hes').
    rewrite Hc in Htr'. cbn [fst] in *.
    rewrite Htr', Htr, !forallb_app, Hes, Hes'. cbn. now rewrite Hload.
  - destruct (emits_trace (prepare w cfg) (extend start [LoadConfig None]) (Hprep cfg Hl)) as (es0 & Htr & Hes).
    rewrite Hp in Htr. cbn [fst] in Htr.
    destruct (emits_trace (checks w cfg environ src result) p0
                (Hchecks cfg environ src result Hl Hd)) as (es' & Htr' & Hes').
    rewrite Hc in Htr'. cbn [fst] in *.
    change (NewUUID u :: es ++ [closing res]) with ([NewUUID u] ++ es ++ [closing res]).
    rewrite Htr', Htr, !forallb_app, Hes, Hes'.
    rewrite (loop_run_forall _ _ _ _ _ Hup Hwarn Herr Hsleep Hloop).
    cbn. now rewrite Hload, Huuid, Hclose.
Qed.

Lemma forallb_not_count (f : Event Doc -> bool) (tr : list (Event Doc)) :
  forallb (fun e => negb (f e)) tr = true -> count f tr = 0.
Proof.
  unfold count. induction tr as [|e tr IH]; [reflexivity|]. cbn.
  intros [He Htr]%andb_prop. destruct (f e); [discriminate | auto].
Qed.

End Everywhere.

(** ** A run split at the upload *)

Section RunSplit.

Context {Doc : Type} (w : World Doc) (E : Event Doc -> bool).

(** If [E] holds of every event of the steps before the upload, a run
    consists of such events only, or of such events, the UUID, the loop
    and the closing line. *)
Lemma run_split :
  (forall o, E (LoadConfig o) = true) ->
  (forall err, E (Log Fatal (LoadFailed err)) = true) ->
  (forall cfg, emits E (prepare w cfg)) ->
  (forall result, emits E (dry_run w result)) ->
  (forall cfg environ src result, emits E (checks w cfg environ src result)) ->
  forallb E (trace (fst (PipelineUploadCommand w))) = true \/
  (exists cfg p0 environ src result pre u es res,
     parsed w cfg p0 environ src result /\ DryRun cfg = false /\
     trace (fst (PipelineUploadCommand w)) = pre ++ NewUUID u :: es ++ [closing res] /\
     forallb E pre = true /\
     loop_run 5 u 60 es res /\
     Forall (request_of cfg u result) es /\
     snd (PipelineUploadCommand w) = exit_of res).
Proof.
  intros Hload Hloadfail Hprep Hdry Hchecks.
  destruct (run_cases w) as
    [(err & _ & ->) | [(cfg & p & msg & Hl & Hp & ->) |
     [(cfg & p0 & environ & src & result & Hparsed & Hd & ->) |
      [(cfg & p0 & environ & src & result & p & msg & Hparsed & Hd & Hc & ->) |
       (cfg & p0 & environ & src & result & p1 & u & es & res & Hparsed & Hd & Hc
          & Htr & Hloop & Hreq & Hexit)]]]];
    unfold loaded in *.
  - left. cbn. now rewrite Hload, Hloadfail.
  - left.
    destruct (emits_trace E (prepare w cfg) (extend start [LoadConfig None]) (Hprep cfg))
      as (es & Htr & Hes).
    rewrite Hp in Htr. cbn [fst] in *. rewrite Htr, forallb_app, Hes. cbn. now rewrite Hload.
  - left. destruct Hparsed as [Hl Hp].
    destruct (emits_trace E (prepare w cfg) (extend start [LoadConfig None]) (Hprep cfg))
      as (es & Htr & Hes).
    rewrite Hp in Htr. cbn [fst] in Htr.
    destruct (emits_trace E (dry_run w result) p0 (Hdry result)) as (es' & Htr' & Hes').
    rewrite Htr', Htr, !forallb_app, Hes, Hes'. cbn. now rewrite Hload.
  - left. destruct Hparsed as [Hl Hp].
    destruct (emits_trace E (prepare w cfg) (extend start [LoadConfig None]) (Hprep cfg))
      as (es & Htr & Hes).
    rewrite Hp in Htr. cbn [fst] in Htr.
    destruct (emits_trace E (checks w cfg environ src result) p0
                (Hchecks cfg environ src result)) as (es' & Htr' & Hes').
    rewrite Hc in Htr'. cbn [fst] in *.
    rewrite Htr', Htr, !forallb_app, Hes, Hes'. cbn. now rewrite Hload.
  - right. exists cfg, p0, environ, src, result, (trace p1), u, es, res.
    repeat split; try assumption; try apply Hparsed.
    destruct Hparsed as [Hl Hp].
    destruct (emits_trace E (prepare w cfg) (extend start [LoadConfig None]) (Hprep cfg))
      as (es0 & Htr0 & Hes0).
    rewrite Hp in Htr0. cbn [fst] in Htr0.
    destruct (emits_trace E (checks w cfg environ src result) p0
                (Hchecks cfg environ src result)) as (es' & Htr' & Hes').
    rewrite Hc in Htr'. cbn [fst] in *.
    rewrite Htr', Htr0, !forallb_app, Hes0, Hes'. cbn. now rewrite Hload.
Qed.

Lemma forallb_elem (tr : list (Event Doc)) (e : Event Doc) :
  forallb E tr = true -> e ∈ tr -> E e = true.
Proof. rewrite forallb_forall. intros H Hin. now apply H, list_elem_of_In. Qed.

Lemma omap_silent {X} (f : Event Doc -> option X) (tr : list (Event Doc)) :
  (forall e, E e = true -> f e = None) ->
  forallb E tr = true -> omap f tr = [].
Proof.
  intros Hf. induction tr as [|e tr IH]; [reflexivity|]. cbn [forallb].
  intros [He Htr]%andb_prop. cbn. now rewrite (Hf e He), IH.
Qed.

End RunSplit.

Ltac prefix_phases :=
  try solve [intros; reflexivity];
  try solve [intros [|]; reflexivity];
  try solve [intros; unfold checks, prepare, resolve_source, resolve_environ,
               parse_pipeline, dry_run, redaction_guard, leftover_stat_loop,
               check_job_and_token;
             emits_tac].

(** ** Standard output, and the redaction check at its edges *)

Lemma Contains_empty (s : string) : strings.Contains s EmptyString = true.
Proof. destruct s; reflexivity. Qed.

Section GuardEdges.

Context {Doc : Type} (w : World Doc).

(** X1. Outside a dry run the command never encodes the pipeline to
    standard output, however the run ends. *)
Theorem stdout_only_in_dry_run cfg :
  cliconfig_Load w = inr cfg ->
  DryRun cfg = false ->
  count is_encode (trace (fst (PipelineUploadCommand w))) = 0.
Proof.
  intros Hload Hdry. apply forallb_not_count, whole_run_forall; prefix_phases.
  intros cfg' result Hl Hd. rewrite Hload in Hl. inversion Hl; subst. congruence.
Qed.

(** With redacted variables, after the parse and outside a dry run, the
    run is decided by the serialisation and the scan. *)
Lemma guarded_run cfg p0 environ src result :
  parsed w cfg p0 environ src result ->
  DryRun cfg = false ->
  RedactedVars cfg <> [] ->
  PipelineUploadCommand w =
  match doc_MarshalJSON w result with
  | inl err =>
      (extend p0 [GetValuesToRedact (RedactedVars cfg); MarshalJSON (Some err);
                  Log Fatal (SerialiseFailed src err)],
       inl (SerialiseFailed src err))
  | inr serialised =>
      if existsb (strings.Contains serialised)
                 (redaction_values w (RedactedVars cfg) environ)
      then (extend p0 [GetValuesToRedact (RedactedVars cfg); MarshalJSON None;
                       Log Fatal (RedactedVarsFound src)],
            inl (RedactedVarsFound src))
      else (leftover_stat_loop w ;;; check_job_and_token cfg ;;; submit w cfg result)
             (extend p0 [GetValuesToRedact (RedactedVars cfg); MarshalJSON None])
  end.
Proof.
  intros Hparsed Hdry Hvars. rewrite (parsed_run _ _ _ _ _ _ Hparsed), Hdry.
  unfold deliver, redaction_guard.
  destruct (RedactedVars cfg) as [|v vars] eqn:Ev; [contradiction|].
  cbn [length Nat.ltb Nat.leb]. exec.
  destruct (doc_MarshalJSON w result) as [err|serialised]; cbn [err_of fst].
  - now rewrite !extend_extend.
  - rewrite scan_needles_run. destruct (existsb _ _); now rewrite !extend_extend.
Qed.

Lemma parsed_attempts cfg p0 environ src result :
  parsed w cfg p0 environ src result -> attempts (trace p0) = 0.
Proof.
  intros H. apply parsed_preparing in H. now apply preparing_silent in H.
Qed.

(** X2. With an empty list of redacted variables the redaction check is
    not made at all: neither the values are collected nor the pipeline is
    serialised, and after the parse the run goes straight to what follows
    the check. *)
Theorem no_redacted_vars_no_check cfg :
  cliconfig_Load w = inr cfg ->
  RedactedVars cfg = [] ->
  count is_redaction (trace (fst (PipelineUploadCommand w))) = 0 /\
  forall p0 environ src result,
    parsed w cfg p0 environ src result -> DryRun cfg = false ->
    PipelineUploadCommand w =
    (leftover_stat_loop w ;;; check_job_and_token cfg ;;; submit w cfg result) p0.
Proof.
  intros Hload Hvars. split.
  - apply forallb_not_count, whole_run_forall; prefix_phases.
    intros cfg' environ src result Hl _. rewrite Hload in Hl. inversion Hl; subst cfg'.
    unfold checks, redaction_guard, leftover_stat_loop, check_job_and_token.
    rewrite Hvars. cbn [length Nat.ltb Nat.leb]. emits_tac.
  - intros p0 environ src result Hparsed Hdry.
    rewrite (parsed_run _ _ _ _ _ _ Hparsed), Hdry. unfold deliver, redaction_guard.
    rewrite Hvars. reflexivity.
Qed.

(** X3. When the pipeline cannot be serialised for the redaction check
    the command exits through [l.Fatal] with the source name and the
    error; the values are not scanned for and nothing is uploaded. *)
Theorem serialisation_failure_is_fatal cfg p0 environ src result err :
  parsed w cfg p0 environ src result ->
  DryRun cfg = false ->
  RedactedVars cfg <> [] ->
  doc_MarshalJSON w result = inl err ->
  PipelineUploadCommand w =
    (extend p0 [GetValuesToRedact (RedactedVars cfg); MarshalJSON (Some err);
                Log Fatal (SerialiseFailed src err)],
     inl (SerialiseFailed src err)) /\
  attempts (trace (fst (PipelineUploadCommand w))) = 0.
Proof.
  intros Hparsed Hdry Hvars Hjson.
  rewrite (guarded_run _ _ _ _ _ Hparsed Hdry Hvars), Hjson. split; [reflexivity|].
  cbn [fst trace extend]. rewrite attempts_app, (parsed_attempts _ _ _ _ _ Hparsed).
  reflexivity.
Qed.

(** X4. An empty string among the values to redact refuses every
    pipeline: [strings.Contains] finds the empty string in any text. *)
Theorem empty_needle_refuses_every_pipeline cfg p0 environ src result serialised :
  parsed w cfg p0 environ src result ->
  DryRun cfg = false ->
  RedactedVars cfg <> [] ->
  doc_MarshalJSON w result = inr serialised ->
  EmptyString ∈ redaction_values w (RedactedVars cfg) environ ->
  snd (PipelineUploadCommand w) = inl (RedactedVarsFound src) /\
  attempts (trace (fst (PipelineUploadCommand w))) = 0.
Proof.
  intros Hparsed Hdry Hvars Hjson Hempty.
  rewrite (guarded_run _ _ _ _ _ Hparsed Hdry Hvars), Hjson.
  assert (existsb (strings.Contains serialised)
            (redaction_values w (RedactedVars cfg) environ) = true) as ->.
  { apply existsb_exists. exists EmptyString.
    split; [now apply list_elem_of_In | apply Contains_empty]. }
  split; [reflexivity|].
  cbn [fst trace extend]. rewrite attempts_app, (parsed_attempts _ _ _ _ _ Hparsed).
  reflexivity.
Qed.

End GuardEdges.

Lemma stdout_only_in_dry_run_witness :
  cliconfig_Load Samples.flaky_server = inr (Samples.explicit_config false []) /\
  DryRun (Samples.explicit_config false []) = false /\
  count is_encode (trace (fst (PipelineUploadCommand Samples.flaky_server))) = 0.
Proof.
  split; [reflexivity|]. split; [reflexivity|].
  exact (stdout_only_in_dry_run Samples.flaky_server (Samples.explicit_config false [])
           eq_refl eq_refl).
Defined.

Lemma no_redacted_vars_no_check_witness :
  cliconfig_Load Samples.flaky_server = inr (Samples.explicit_config false []) /\
  RedactedVars (Samples.explicit_config false []) = [] /\
  count is_redaction (trace (fst (PipelineUploadCommand Samples.flaky_server))) = 0.
Proof.
  split; [reflexivity|]. split; [reflexivity|].
  exact (proj1 (no_redacted_vars_no_check Samples.flaky_server
                  (Samples.explicit_config false []) eq_refl eq_refl)).
Defined.

Lemma serialisation_failure_is_fatal_witness :
  let w := Samples.unserialisable in
  let cfg := Samples.explicit_config false ["SECRET"] in
  let doc := "steps: [make test]" in
  let err := errorString "json: unsupported value" in
  let p0 := fst (prepare w cfg (extend start [LoadConfig None])) in
  parsed w cfg p0 Samples.env_secret "pipeline.yml" doc /\
  DryRun cfg = false /\ RedactedVars cfg <> [] /\
  doc_MarshalJSON w doc = inl err /\
  snd (PipelineUploadCommand w) = inl (SerialiseFailed "pipeline.yml" err) /\
  attempts (trace (fst (PipelineUploadCommand w))) = 0.
Proof.
  intros w cfg doc err p0.
  assert (Hparsed : parsed w cfg p0 Samples.env_secret "pipeline.yml" doc)
    by (split; reflexivity).
  assert (Hvars : RedactedVars cfg <> []) by discriminate.
  destruct (serialisation_failure_is_fatal w cfg p0 Samples.env_secret "pipeline.yml" doc err
              Hparsed eq_refl Hvars eq_refl) as [Hrun Hnone].
  repeat split; try assumption; try reflexivity.
Defined.

Lemma empty_needle_refuses_every_pipeline_witness :
  let w := Samples.empty_secret in
  let cfg := Samples.explicit_config false ["SECRET"] in
  let doc := "steps: [make test]" in
  let env : gmap string string := {[ "SECRET" := EmptyString ]} in
  let p0 := fst (prepare w cfg (extend start [LoadConfig None])) in
  parsed w cfg p0 env "pipeline.yml" doc /\
  DryRun cfg = false /\ RedactedVars cfg <> [] /\
  doc_MarshalJSON w doc = inr doc /\
  EmptyString ∈ redaction_values w (RedactedVars cfg) env /\
  snd (PipelineUploadCommand w) = inl (RedactedVarsFound "pipeline.yml") /\
  attempts (trace (fst (PipelineUploadCommand w))) = 0.
Proof.
  intros w cfg doc env p0.
  assert (Hparsed : parsed w cfg p0 env "pipeline.yml" doc) by (split; reflexivity).
  assert (Hvars : RedactedVars cfg <> []) by discriminate.
  assert (Hempty : EmptyString ∈ redaction_values w (RedactedVars cfg) env)
    by (apply list_elem_of_In; left; reflexivity).
  destruct (empty_needle_refuses_every_pipeline w cfg p0 env "pipeline.yml" doc doc
              Hparsed eq_refl Hvars eq_refl Hempty) as [Hrun Hnone].
  repeat split; try assumption; try reflexivity.
Defined.

(** ** The empty source, the environment and the parser's input *)

Section TrimFacts.

Lemma TrimLeft_spaces (l s : string) :
  all_space l = true -> strings.TrimLeft (l +:+ s) = strings.TrimLeft s.
Proof.
  induction l as [|c l IH]; [reflexivity|]. cbn [all_space].
  intros [Hc Hl]%andb_prop. rewrite append_cons. cbn [strings.TrimLeft].
  rewrite Hc. now apply IH.
Qed.

Lemma TrimLeft_all_space (l : string) :
  all_space l = true -> strings.TrimLeft l = EmptyString.
Proof.
  induction l as [|c l IH]; [reflexivity|]. cbn [all_space strings.TrimLeft].
  intros [-> Hl]%andb_prop. now apply IH.
Qed.

Lemma TrimRight_all_space (r : string) :
  all_space r = true -> strings.TrimRight r = EmptyString.
Proof.
  induction r as [|c r IH]; [reflexivity|]. cbn [all_space strings.TrimRight].
  intros [Hc Hr]%andb_prop. now rewrite IH, Hc.
Qed.

Lemma TrimRight_spaces (s r : string) :
  all_space r = true -> strings.TrimRight (s +:+ r) = strings.TrimRight s.
Proof.
  intros Hr. induction s as [|c s IH].
  - rewrite append_empty. now apply TrimRight_all_space.
  - rewrite append_cons. cbn [strings.TrimRight]. now rewrite IH.
Qed.

Lemma TrimRight_clean (s : string) (c : ascii) :
  last_char s = Some c -> strings.isSpace c = false -> strings.TrimRight s = s.
Proof.
  intros Hlast Hc. induction s as [|d s IH]; [discriminate|].
  cbn [strings.TrimRight]. destruct s as [|d' s].
  - cbn in *. inversion Hlast; subst. now rewrite Hc.
  - rewrite IH by exact Hlast. reflexivity.
Qed.

(** [strings.TrimSpace] removes the white space around a trimmed string
    and nothing else. *)
Lemma TrimSpace_around (l h r : string) :
  all_space l = true -> all_space r = true -> trimmed h ->
  strings.TrimSpace (l +:+ h +:+ r) = h.
Proof.
  intros Hl Hr [Hfirst Hlast]. unfold strings.TrimSpace.
  rewrite TrimLeft_spaces by exact Hl.
  destruct h as [|c h]; [contradiction|].
  rewrite append_cons. cbn [strings.TrimLeft]. rewrite Hfirst, <- append_cons.
  rewrite TrimRight_spaces by exact Hr.
  destruct (last_char (String c h)) as [d|] eqn:Hd; [|contradiction].
  now apply TrimRight_clean with d.
Qed.

Lemma TrimSpace_all_space (s : string) :
  all_space s = true -> strings.TrimSpace s = EmptyString.
Proof. intros H. unfold strings.TrimSpace. now rewrite TrimLeft_all_space. Qed.

End TrimFacts.

Section BeforeTheParse.

Context {Doc : Type} (w : World Doc).

(** X5. Whatever the pipeline was read from, a source without content
    ends the command with the empty-file message right after the read:
    git is not run and the parser is not called. *)
Theorem empty_source_is_fatal cfg p1 filename :
  cliconfig_Load w = inr cfg ->
  resolve_source w cfg loaded = (p1, inr (filename, EmptyString)) ->
  PipelineUploadCommand w = (extend p1 [Log Fatal EmptyConfig], inl EmptyConfig) /\
  git_calls (trace (fst (PipelineUploadCommand w))) = [] /\
  parse_calls (trace (fst (PipelineUploadCommand w))) = [].
Proof.
  intros Hload Hsrc.
  assert (Hrun : PipelineUploadCommand w
                 = (extend p1 [Log Fatal EmptyConfig], inl EmptyConfig)).
  { rewrite (Action_after_load w cfg Hload), bind_run. unfold prepare.
    fold (@loaded Doc). rewrite bind_run, Hsrc. reflexivity. }
  assert (Hquiet : emits (fun e => negb (is_git e || is_parse e)) (resolve_source w cfg))
    by (unfold resolve_source; emits_tac).
  destruct (emits_trace _ _ loaded Hquiet) as (es & Htr & Hes).
  rewrite Hsrc in Htr. cbn [fst] in Htr.
  assert (Hg : git_calls es = []).
  { apply (omap_silent (fun e => negb (is_git e || is_parse e))); [|exact Hes].
    intros [] H; try discriminate H; reflexivity. }
  assert (Hp : parse_calls es = []).
  { apply (omap_silent (fun e => negb (is_git e || is_parse e))); [|exact Hes].
    intros [] H; try discriminate H; reflexivity. }
  rewrite Hrun. split; [reflexivity|]. cbn [fst trace extend]. rewrite Htr.
  unfold git_calls, parse_calls in *. rewrite !omap_app, Hg, Hp. split; reflexivity.
Qed.

(** X6. The environment handed to the parser differs from the process
    environment in BUILDKITE_COMMIT at most: every other variable has the
    value it had, and BUILDKITE_COMMIT is set exactly when it was set. *)
Theorem other_variables_untouched cfg p0 environ src result :
  parsed w cfg p0 environ src result ->
  (forall name, name <> "BUILDKITE_COMMIT" -> environ !! name = os_Environ w !! name) /\
  (is_Some (environ !! "BUILDKITE_COMMIT") <-> is_Some (os_Environ w !! "BUILDKITE_COMMIT")).
Proof.
  intros [_ Hprep]. revert Hprep.
  unfold prepare, resolve_source, resolve_environ, parse_pipeline.
  exec. split_cases; intros; simplify_eq;
    (split; [intros name Hne; rewrite ?lookup_insert_ne by congruence; reflexivity|]);
    rewrite ?lookup_insert_eq;
    try match goal with H : os_Environ w !! _ = _ |- _ => rewrite H end;
    split; intros HH; eauto.
Qed.

(** X7. When [git rev-parse] succeeds and its output is ASCII (every
    byte below [utf8.RuneSelf], where the white space [strings.TrimSpace]
    removes is tab, line feed, vertical tab, form feed, carriage return
    and space), BUILDKITE_COMMIT becomes the output without the white
    space around it; output that is white space only makes the variable
    empty. *)
Theorem resolved_revision_is_trimmed cfg p0 environ src result commitRef cmdOut :
  parsed w cfg p0 environ src result ->
  os_Environ w !! "BUILDKITE_COMMIT" = Some commitRef ->
  git_rev_parse w commitRef = inr cmdOut ->
  is_ascii cmdOut = true ->
  environ !! "BUILDKITE_COMMIT" = Some (strings.TrimSpace cmdOut) /\
  (forall l h r,
     cmdOut = (l +:+ h +:+ r)%string ->
     all_space l = true -> all_space r = true -> trimmed h ->
     environ !! "BUILDKITE_COMMIT" = Some h) /\
  (all_space cmdOut = true -> environ !! "BUILDKITE_COMMIT" = Some EmptyString).
Proof.
  intros [_ Hprep] Henv Hgit _.
  assert (Hvalue : environ !! "BUILDKITE_COMMIT" = Some (strings.TrimSpace cmdOut)).
  { revert Hprep. unfold prepare, resolve_source, resolve_environ, parse_pipeline.
    exec. split_cases; intros; simplify_eq; apply lookup_insert_eq. }
  split; [exact Hvalue|]. split.
  - intros l h r -> Hl Hr Hh. now rewrite Hvalue, TrimSpace_around.
  - intros Hall. now rewrite Hvalue, TrimSpace_all_space.
Qed.

End BeforeTheParse.

Lemma empty_source_is_fatal_witness :
  let w := Samples.empty_file in
  let cfg := Samples.explicit_config false [] in
  let p1 := fst (resolve_source w cfg loaded) in
  cliconfig_Load w = inr cfg /\
  resolve_source w cfg loaded = (p1, inr ("pipeline.yml", EmptyString)) /\
  PipelineUploadCommand w = (extend p1 [Log Fatal EmptyConfig], inl EmptyConfig) /\
  git_calls (trace (fst (PipelineUploadCommand w))) = [] /\
  parse_calls (trace (fst (PipelineUploadCommand w))) = [].
Proof.
  intros w cfg p1. split; [reflexivity|]. split; [reflexivity|].
  exact (empty_source_is_fatal w cfg p1 "pipeline.yml" eq_refl eq_refl).
Defined.

Lemma other_variables_untouched_witness :
  let w := Samples.resolving in
  let cfg := Samples.explicit_config false [] in
  let doc := "steps: [make test]" in
  let env : gmap string string := <["BUILDKITE_COMMIT" := "4f0a9c1"]> Samples.env_secret in
  let p0 := fst (prepare w cfg (extend start [LoadConfig None])) in
  parsed w cfg p0 env "pipeline.yml" doc /\
  (forall name, name <> "BUILDKITE_COMMIT" -> env !! name = os_Environ w !! name) /\
  (is_Some (env !! "BUILDKITE_COMMIT") <-> is_Some (os_Environ w !! "BUILDKITE_COMMIT")).
Proof.
  intros w cfg doc env p0.
  assert (Hparsed : parsed w cfg p0 env "pipeline.yml" doc) by (split; reflexivity).
  split; [exact Hparsed|].
  exact (other_variables_untouched w cfg p0 env "pipeline.yml" doc Hparsed).
Defined.

Lemma resolved_revision_is_trimmed_witness :
  let w := Samples.resolving in
  let cfg := Samples.explicit_config false [] in
  let doc := "steps: [make test]" in
  let env : gmap string string := <["BUILDKITE_COMMIT" := "4f0a9c1"]> Samples.env_secret in
  let out := ("4f0a9c1" +:+ String "010"%char EmptyString)%string in
  let p0 := fst (prepare w cfg (extend start [LoadConfig None])) in
  parsed w cfg p0 env "pipeline.yml" doc /\
  os_Environ w !! "BUILDKITE_COMMIT" = Some "HEAD" /\
  git_rev_parse w "HEAD" = inr out /\
  is_ascii out = true /\
  env !! "BUILDKITE_COMMIT" = Some (strings.TrimSpace out) /\
  env !! "BUILDKITE_COMMIT" = Some "4f0a9c1".
Proof.
  intros w cfg doc env out p0.
  assert (Hparsed : parsed w cfg p0 env "pipeline.yml" doc) by (split; reflexivity).
  split; [exact Hparsed|]. split; [reflexivity|]. split; [reflexivity|].
  split; [reflexivity|].
  destruct (resolved_revision_is_trimmed w cfg p0 env "pipeline.yml" doc "HEAD" out
              Hparsed eq_refl eq_refl eq_refl) as (Hvalue & Haround & _).
  split; [exact Hvalue|].
  apply (Haround EmptyString "4f0a9c1"%string (String "010"%char EmptyString));
    [reflexivity|reflexivity|reflexivity|split; reflexivity].
Defined.

(** ** From the source to the request *)

Ltac flow_parts :=
  eexists _, _; split; [reflexivity|]; split; [cbn; eassumption|];
  split; [intros ->; discriminate|]; split; [cbn; eassumption|];
  cbn [originName]; rewrite ?source_name_Base; reflexivity.

Ltac solve_flow :=
  unfold origin, filepath.Base in *;
  match goal with
  | H1 : negb _ = true |- _ => rewrite H1; flow_parts
  | H1 : negb _ = false, H5 : stdin_readable _ = true |- _ => rewrite H1, H5; flow_parts
  | H1 : negb _ = false, H5 : stdin_readable _ = false,
    H7 : [] ++ _ = _ :: ?l, H6 : Nat.ltb _ _ = false |- _ =>
      destruct l; [|discriminate H6]; cbn [app] in H7; rewrite H1, H5, H7; flow_parts
  end.

Section Dataflows.

Context {Doc : Type} (w : World Doc).

(** X8. The parsed pipeline is what the parser returns for the content
    found at the origin, which is not empty, under the name that goes with
    the origin (the base name of the file, nothing for standard input),
    the resolved environment and the no-interpolation flag of the
    configuration. *)
Theorem parsed_from_the_origin cfg p0 environ src result :
  parsed w cfg p0 environ src result ->
  exists o input,
    origin w cfg = Some o /\
    content_of w o = inr input /\
    input <> EmptyString /\
    parser_Parse w environ (filename_of o) input (NoInterpolation cfg) = inr result /\
    src = originName o.
Proof.
  intros [_ Hprep]. revert Hprep.
  unfold prepare, resolve_source, resolve_environ, parse_pipeline.
  exec. split_cases; intros; simplify_eq; solve_flow.
Qed.

End Dataflows.

Lemma parsed_from_the_origin_witness :
  let w := Samples.piping in
  let cfg := Samples.config EmptyString "job-1" "token-1" false [] in
  let doc := "steps: [make test]" in
  let env : gmap string string := {[ "SECRET" := "foo123" ]} in
  let p0 := fst (prepare w cfg (extend start [LoadConfig None])) in
  parsed w cfg p0 env "(stdin)" doc /\
  exists o input,
    origin w cfg = Some o /\ content_of w o = inr input /\ input <> EmptyString /\
    parser_Parse w env (filename_of o) input (NoInterpolation cfg) = inr doc /\
    "(stdin)" = originName o.
Proof.
  intros w cfg doc env p0.
  assert (Hparsed : parsed w cfg p0 env "(stdin)" doc) by (split; reflexivity).
  split; [exact Hparsed|].
  exact (parsed_from_the_origin w cfg p0 env "(stdin)" doc Hparsed).
Defined.

(** ** Calls made at most once *)

Section AtMostOnce.

Context {Doc : Type} (w : World Doc).

(** A reading of the trace that only the steps up to the parse
    contribute to is decided by those steps. *)
Lemma reading_of_prepare {X} (f : Event Doc -> option X) (E : Event Doc -> bool) :
  (forall e, E e = true -> f e = None) ->
  (forall o, E (LoadConfig o) = true) ->
  (forall err, E (Log Fatal (LoadFailed err)) = true) ->
  (forall result, emits E (dry_run w result)) ->
  (forall cfg environ src result, emits E (checks w cfg environ src result)) ->
  (forall u, E (NewUUID u) = true) ->
  (forall job pl a, E (UploadPipeline job pl a) = true) ->
  (forall e s, E (Log Warn (UploadWarning e s)) = true) ->
  E (Log Error Unrecoverable) = true ->
  E (Sleep 5) = true ->
  (forall res, E (closing res) = true) ->
  (forall err, cliconfig_Load w = inl err ->
     omap f (trace (fst (PipelineUploadCommand w))) = []) /\
  (forall cfg, cliconfig_Load w = inr cfg ->
     omap f (trace (fst (PipelineUploadCommand w)))
     = omap f (trace (fst (prepare w cfg loaded)))).
Proof.
  intros Hf Hload Hloadfail Hdry Hchecks Huuid Hup Hwarn Herr Hsleep Hclose.
  pose proof (fun tr => omap_silent E f tr Hf) as Hnil.
  destruct (run_cases w) as
    [(err & Hl & ->) | [(cfg & p & msg & Hl & Hp & ->) |
     [(cfg & p0 & environ & src & result & [Hl Hp] & Hd & ->) |
      [(cfg & p0 & environ & src & result & p & msg & [Hl Hp] & Hd & Hc & ->) |
       (cfg & p0 & environ & src & result & p1 & u & es & res & [Hl Hp] & Hd & Hc
          & -> & Hloop & _)]]]];
    unfold loaded in *;
    (split; [intros err' Hl' | intros cfg' Hl']); rewrite Hl in Hl';
    try discriminate Hl'; try (inversion Hl'; subst cfg').
  - apply Hnil. cbn. now rewrite Hload, Hloadfail.
  - now rewrite Hp.
  - rewrite Hp. cbn [fst].
    destruct (emits_trace E (dry_run w result) p0 (Hdry result)) as (es' & -> & Hes').
    now rewrite omap_app, (Hnil _ Hes'), app_nil_r.
  - rewrite Hp. cbn [fst].
    destruct (emits_trace E (checks w cfg environ src result) p0
                (Hchecks cfg environ src result)) as (es' & Htr' & Hes').
    rewrite Hc in Htr'. cbn [fst] in *.
    now rewrite Htr', omap_app, (Hnil _ Hes'), app_nil_r.
  - rewrite Hp. cbn [fst].
    destruct (emits_trace E (checks w cfg environ src result) p0
                (Hchecks cfg environ src result)) as (es' & Htr' & Hes').
    rewrite Hc in Htr'. cbn [fst] in *.
    change (NewUUID u :: es ++ [closing res]) with ([NewUUID u] ++ es ++ [closing res]).
    rewrite Htr', !omap_app, (Hnil _ Hes').
    rewrite (Hnil es (loop_run_forall E _ _ _ _ _ Hup Hwarn Herr Hsleep Hloop)).
    rewrite (Hnil [NewUUID u]) by (cbn; now rewrite Huuid).
    rewrite (Hnil [closing res]) by (cbn; now rewrite Hclose).
    now rewrite !app_nil_r.
Qed.

Lemma prepare_reads cfg (p : Proc Doc) :
  sources_read (trace p) = [] ->
  sources_read (trace (fst (prepare w cfg p))) = [] \/
  exists o, origin w cfg = Some o /\
            sources_read (trace (fst (prepare w cfg p))) = [read_of o].
Proof.
  intros HP. unfold prepare, resolve_source, resolve_environ, parse_pipeline.
  exec. split_cases; cbn [fst trace extend]; unfold sources_read in *;
    rewrite <- ?app_assoc, ?omap_app, ?HP; cbn;
    try (left; reflexivity); right;
    unfold origin;
    match goal with
    | H1 : negb _ = true |- _ => rewrite H1; eexists; split; reflexivity
    | H1 : negb _ = false, H5 : stdin_readable _ = true |- _ =>
        rewrite H1, H5; eexists; split; reflexivity
    | H1 : negb _ = false, H5 : stdin_readable _ = false,
      H7 : [] ++ _ = _ :: ?l, H6 : Nat.ltb _ _ = false |- _ =>
        destruct l; [|discriminate H6]; cbn [app] in H7; rewrite H1, H5, H7;
        eexists; split; reflexivity
    end.
Qed.

Lemma prepare_git cfg (p : Proc Doc) :
  git_calls (trace p) = [] ->
  git_calls (trace (fst (prepare w cfg p))) = [] \/
  exists commitRef,
    os_Environ w !! "BUILDKITE_COMMIT" = Some commitRef /\
    git_calls (trace (fst (prepare w cfg p))) = [commitRef].
Proof.
  intros HP. unfold prepare, resolve_source, resolve_environ, parse_pipeline.
  exec. split_cases; cbn [fst trace extend]; unfold git_calls in *;
    rewrite <- ?app_assoc, ?omap_app, ?HP; cbn;
    try (left; reflexivity); right; eexists; split; reflexivity.
Qed.

(** X9. An invocation reads at most one source, and it is the one that
    the precedence picks: the file of the command line, standard input, or
    the only default file that exists. *)
Theorem reads_at_most_one_source cfg :
  cliconfig_Load w = inr cfg ->
  sources_read (trace (fst (PipelineUploadCommand w))) = [] \/
  exists o, origin w cfg = Some o /\
            sources_read (trace (fst (PipelineUploadCommand w))) = [read_of o].
Proof.
  intros Hload.
  destruct (reading_of_prepare
              (fun e => match e with
                        | ReadFile name _ => Some (Some name)
                        | ReadStdin _ => Some None
                        | _ => None
                        end)
              (fun e => negb (is_read e))) as [_ Hrun]; prefix_phases.
  { intros [] H; try discriminate H; reflexivity. }
  unfold sources_read in *. rewrite (Hrun cfg Hload). now apply prepare_reads.
Qed.

(** X10. [git rev-parse] is run at most once in an invocation, only when
    BUILDKITE_COMMIT is set, and with the value of that variable. *)
Theorem git_runs_at_most_once :
  git_calls (trace (fst (PipelineUploadCommand w))) = [] \/
  exists commitRef,
    os_Environ w !! "BUILDKITE_COMMIT" = Some commitRef /\
    git_calls (trace (fst (PipelineUploadCommand w))) = [commitRef].
Proof.
  destruct (reading_of_prepare
              (fun e => match e with GitRevParse commitRef _ => Some commitRef | _ => None end)
              (fun e => negb (is_git e))) as [Hfail Hrun]; prefix_phases.
  { intros [] H; try discriminate H; reflexivity. }
  unfold git_calls in *. destruct (cliconfig_Load w) as [err|cfg] eqn:Hload.
  - left. now apply (Hfail err).
  - rewrite (Hrun cfg eq_refl). now apply prepare_git.
Qed.

End AtMostOnce.

Lemma reads_at_most_one_source_witness :
  cliconfig_Load Samples.discovering
  = inr (Samples.config EmptyString "job-1" "token-1" false []) /\
  sources_read (trace (fst (PipelineUploadCommand Samples.discovering)))
  = [Some ".buildkite/pipeline.yml"] /\
  (sources_read (trace (fst (PipelineUploadCommand Samples.discovering))) = [] \/
   exists o, origin Samples.discovering
               (Samples.config EmptyString "job-1" "token-1" false []) = Some o /\
             sources_read (trace (fst (PipelineUploadCommand Samples.discovering)))
             = [read_of o]).
Proof.
  split; [reflexivity|]. split; [reflexivity|].
  exact (reads_at_most_one_source Samples.discovering
           (Samples.config EmptyString "job-1" "token-1" false []) eq_refl).
Defined.

(** ** What the loop logs and sends *)

Section LoopLogs.

Context {Doc : Type}.

Lemma loop_run_warned interval u n (es : list (Event Doc)) r :
  loop_run interval u n es r -> warned_errors es = failed_uploads es.
Proof.
  unfold warned_errors, failed_uploads. induction 1; cbn; try reflexivity.
  now f_equal.
Qed.

Lemma loop_run_unrecoverable interval u n (es : list (Event Doc)) r :
  loop_run interval u n es r ->
  Log Error Unrecoverable ∈ es <->
  exists job pl e, UploadPipeline job pl (Some e) ∈ es /\ is_unprocessable e = true.
Proof.
  induction 1 as [n job pl Hu | n job pl e s Hu He | job pl e s Hu He
                 | n job pl e s es r Hu He Hrun IH].
  - split.
    + intros Hin. apply list_elem_of_singleton in Hin. discriminate.
    + intros (job' & pl' & e' & Hin & _). apply list_elem_of_singleton in Hin. discriminate.
  - split; intros _.
    + exists job, pl, e. split; [apply list_elem_of_here | exact He].
    + do 2 apply list_elem_of_further. apply list_elem_of_here.
  - split.
    + intros Hin. repeat (apply elem_of_cons in Hin as [Hin|Hin]; [discriminate|]).
      inversion Hin.
    + intros (job' & pl' & e' & Hin & He').
      apply elem_of_cons in Hin as [Hin|Hin]; [inversion Hin; congruence|].
      apply list_elem_of_singleton in Hin. discriminate.
  - rewrite !elem_of_cons, IH. split.
    + intros [H|[H|[H|(job' & pl' & e' & Hin & He')]]]; try discriminate.
      exists job', pl', e'. split; [|exact He']. now do 3 apply list_elem_of_further.
    + intros (job' & pl' & e' & Hin & He').
      repeat (apply elem_of_cons in Hin as [Hin|Hin];
              [try discriminate; inversion Hin; congruence|]).
      do 3 right. now exists job', pl', e'.
Qed.

Lemma loop_run_success interval u n (es : list (Event Doc)) r :
  loop_run interval u n es r ->
  (r = None <-> exists job pl, UploadPipeline job pl None ∈ es) /\
  Log Info UploadOk ∉ es.
Proof.
  induction 1 as [n job pl Hu | n job pl e s Hu He | job pl e s Hu He
                 | n job pl e s es r Hu He Hrun [IH1 IH2]].
  - split.
    + split; [intros _; exists job, pl; apply list_elem_of_here | reflexivity].
    + intros Hin. apply list_elem_of_singleton in Hin. discriminate.
  - split.
    + split; [discriminate|]. intros (job' & pl' & Hin).
      repeat (apply elem_of_cons in Hin as [Hin|Hin]; [discriminate|]). inversion Hin.
    + intros Hin.
      repeat (apply elem_of_cons in Hin as [Hin|Hin]; [discriminate|]). inversion Hin.
  - split.
    + split; [discriminate|]. intros (job' & pl' & Hin).
      repeat (apply elem_of_cons in Hin as [Hin|Hin]; [discriminate|]). inversion Hin.
    + intros Hin.
      repeat (apply elem_of_cons in Hin as [Hin|Hin]; [discriminate|]). inversion Hin.
  - split.
    + rewrite IH1. split; intros (job' & pl' & Hin).
      * exists job', pl'. now do 3 apply list_elem_of_further.
      * do 3 (apply elem_of_cons in Hin as [Hin|Hin]; [discriminate|]).
        now exists job', pl'.
    + intros Hin. do 3 (apply elem_of_cons in Hin as [Hin|Hin]; [discriminate|]).
      now apply IH2.
Qed.

Lemma total_pause_app (a b : list (Event Doc)) :
  total_pause (a ++ b) = (total_pause a + total_pause b)%Z.
Proof.
  unfold total_pause. induction a as [|e a IH]; [reflexivity|]. cbn.
  rewrite IH. destruct e; lia.
Qed.

Lemma loop_run_pause interval u n (es : list (Event Doc)) r :
  loop_run interval u n es r ->
  total_pause es = (interval * Z.of_nat (attempts es - 1))%Z.
Proof.
  induction 1 as [n job pl Hu | n job pl e s Hu He | job pl e s Hu He
                 | n job pl e s es r Hu He Hrun IH]; cbn; try lia.
  destruct (loop_run_results _ _ _ _ _ Hrun) as (fails & _ & _ & Hatt & _).
  unfold total_pause in *. cbn. rewrite IH.
  unfold attempts, count in *. cbn. rewrite Hatt. cbn.
  rewrite Nat.sub_0_r, Nat2Z.inj_succ. ring.
Qed.

Lemma calm_silent (tr : list (Event Doc)) :
  forallb calm tr = true ->
  attempts tr = 0 /\ warned_errors tr = [] /\ failed_uploads tr = [] /\
  total_pause tr = 0%Z.
Proof.
  induction tr as [|e tr IH]; [easy|]. cbn [forallb]. intros [He Htr]%andb_prop.
  destruct (IH Htr) as (H1 & H2 & H3 & H4).
  unfold attempts, count, warned_errors, failed_uploads, total_pause in *.
  destruct e as [[] []| | | | | | | | | | | | |]; try discriminate He; cbn; auto.
Qed.

End LoopLogs.

Lemma is_unprocessable_422 (e : error) :
  is_unprocessable e = true <-> exists message, e = ErrorResponse 422 message.
Proof.
  destruct e as [code message|s]; cbn.
  - rewrite Z.eqb_eq. split; [intros ->; now exists message | intros [m H]; congruence].
  - split; [discriminate | intros [m H]; discriminate].
Qed.

Section UploadLogs.

Context {Doc : Type} (w : World Doc).

Lemma calm_split :
  forallb calm (trace (fst (PipelineUploadCommand w))) = true \/
  (exists cfg p0 environ src result pre u es res,
     parsed w cfg p0 environ src result /\ DryRun cfg = false /\
     trace (fst (PipelineUploadCommand w)) = pre ++ NewUUID u :: es ++ [closing res] /\
     forallb calm pre = true /\
     loop_run 5 u 60 es res /\
     Forall (request_of cfg u result) es /\
     snd (PipelineUploadCommand w) = exit_of res).
Proof. apply run_split; prefix_phases. Qed.

Lemma elem_of_run (e : Event Doc) pre u es res :
  e ∈ pre ++ NewUUID u :: es ++ [closing res] <->
  e ∈ pre \/ e = NewUUID u \/ e ∈ es \/ e = closing res.
Proof. now rewrite elem_of_app, elem_of_cons, elem_of_app, list_elem_of_singleton. Qed.

(** X11. Every upload request of an invocation is made for the job of
    the configuration and carries the pipeline the parser returned and the
    replace flag of the configuration, on the first attempt and on every
    retry. *)
Theorem requests_carry_the_parsed_pipeline cfg p0 environ src result :
  parsed w cfg p0 environ src result ->
  forall job pl a,
    UploadPipeline job pl a ∈ trace (fst (PipelineUploadCommand w)) ->
    job = Job cfg /\ Document pl = result /\ ReplaceSteps pl = Replace cfg.
Proof.
  intros Hparsed job pl a Hin.
  destruct calm_split as
    [Hcalm | (cfg' & p0' & environ' & src' & result' & pre & u & es & res & Hparsed'
                & _ & Htr & Hpre & _ & Hreq & _)].
  - apply (forallb_elem calm _ _ Hcalm) in Hin. discriminate Hin.
  - destruct (parsed_functional w _ _ _ _ _ _ _ _ _ _ Hparsed Hparsed')
      as (-> & _ & _ & _ & ->).
    rewrite Htr in Hin. apply elem_of_run in Hin as [Hin | [Hin | [Hin | Hin]]].
    + apply (forallb_elem calm _ _ Hpre) in Hin. discriminate Hin.
    + discriminate Hin.
    + rewrite Forall_forall in Hreq. destruct (Hreq _ Hin) as [-> ->]. auto.
    + destruct res; discriminate Hin.
Qed.

(** X12. Every upload request that fails is logged with a warning that
    carries its error, and there is no other such warning: the errors of
    the warnings are the errors of the failed requests, in order. *)
Theorem failed_uploads_are_warned :
  warned_errors (trace (fst (PipelineUploadCommand w)))
  = failed_uploads (trace (fst (PipelineUploadCommand w))).
Proof.
  destruct calm_split as
    [Hcalm | (cfg & p0 & environ & src & result & pre & u & es & res & _
                & _ & Htr & Hpre & Hloop & _)].
  - apply calm_silent in Hcalm as (_ & -> & -> & _). reflexivity.
  - rewrite Htr. apply calm_silent in Hpre as (_ & Hw & Hf & _).
    change (NewUUID u :: es ++ [closing res]) with ([NewUUID u] ++ es ++ [closing res]).
    unfold warned_errors, failed_uploads in *.
    rewrite !omap_app, Hw, Hf. fold (warned_errors es) (failed_uploads es).
    rewrite (loop_run_warned _ _ _ _ _ Hloop). destruct res; reflexivity.
Qed.

(** X13. The line "Unrecoverable error, skipping retries" is logged
    exactly in the invocations in which an upload request was answered
    with an error response of status 422. *)
Theorem unrecoverable_means_422 :
  Log Error Unrecoverable ∈ trace (fst (PipelineUploadCommand w)) <->
  exists job pl message,
    UploadPipeline job pl (Some (ErrorResponse 422 message))
    ∈ trace (fst (PipelineUploadCommand w)).
Proof.
  destruct calm_split as
    [Hcalm | (cfg & p0 & environ & src & result & pre & u & es & res & _
                & _ & Htr & Hpre & Hloop & _)].
  - split.
    + intros Hin. apply (forallb_elem calm _ _ Hcalm) in Hin. discriminate Hin.
    + intros (job & pl & message & Hin).
      apply (forallb_elem calm _ _ Hcalm) in Hin. discriminate Hin.
  - rewrite Htr. split.
    + intros Hin. apply elem_of_run in Hin as [Hin | [Hin | [Hin | Hin]]].
      * apply (forallb_elem calm _ _ Hpre) in Hin. discriminate Hin.
      * discriminate Hin.
      * apply (loop_run_unrecoverable _ _ _ _ _ Hloop) in Hin
          as (job & pl & e & Hin & [message ->]%is_unprocessable_422).
        exists job, pl, message. apply elem_of_run. auto.
      * destruct res; discriminate Hin.
    + intros (job & pl & message & Hin).
      apply elem_of_run in Hin as [Hin | [Hin | [Hin | Hin]]].
      * apply (forallb_elem calm _ _ Hpre) in Hin. discriminate Hin.
      * discriminate Hin.
      * apply elem_of_run. right; right; left.
        apply (loop_run_unrecoverable _ _ _ _ _ Hloop).
        exists job, pl, (ErrorResponse 422 message). split; [exact Hin | reflexivity].
      * destruct res; discriminate Hin.
Qed.

(** X14. The line "Successfully uploaded and parsed pipeline config" is
    logged exactly in the invocations in which an upload request was
    answered without error; it is then the last event and the command
    returns normally. *)
Theorem success_is_logged_when_accepted :
  (Log Info UploadOk ∈ trace (fst (PipelineUploadCommand w)) <->
   exists job pl, UploadPipeline job pl None ∈ trace (fst (PipelineUploadCommand w))) /\
  (Log Info UploadOk ∈ trace (fst (PipelineUploadCommand w)) ->
   snd (PipelineUploadCommand w) = inr tt /\
   last (trace (fst (PipelineUploadCommand w))) = Some (Log Info UploadOk)).
Proof.
  destruct calm_split as
    [Hcalm | (cfg & p0 & environ & src & result & pre & u & es & res & _
                & _ & Htr & Hpre & Hloop & _ & Hexit)].
  - split; [split|].
    + intros Hin. apply (forallb_elem calm _ _ Hcalm) in Hin. discriminate Hin.
    + intros (job & pl & Hin). apply (forallb_elem calm _ _ Hcalm) in Hin. discriminate Hin.
    + intros Hin. apply (forallb_elem calm _ _ Hcalm) in Hin. discriminate Hin.
  - destruct (loop_run_success _ _ _ _ _ Hloop) as [Hnone Hnolog].
    assert (Hlog : Log Info UploadOk ∈ trace (fst (PipelineUploadCommand w)) -> res = None).
    { rewrite Htr. intros Hin. apply elem_of_run in Hin as [Hin | [Hin | [Hin | Hin]]].
      - apply (forallb_elem calm _ _ Hpre) in Hin. discriminate Hin.
      - discriminate Hin.
      - contradiction.
      - destruct res; [discriminate Hin | reflexivity]. }
    split; [split|].
    + intros Hin. apply Hlog, Hnone in Hin as (job & pl & Hin).
      exists job, pl. rewrite Htr. apply elem_of_run. auto.
    + rewrite Htr. intros (job & pl & Hin).
      apply elem_of_run in Hin as [Hin | [Hin | [Hin | Hin]]].
      * apply (forallb_elem calm _ _ Hpre) in Hin. discriminate Hin.
      * discriminate Hin.
      * assert (res = None) as -> by (apply Hnone; eauto).
        apply elem_of_run. auto.
      * destruct res; discriminate Hin.
    + intros Hin. apply Hlog in Hin. subst res. split; [exact Hexit|].
      rewrite Htr. change (NewUUID u :: es ++ [closing None])
        with ([NewUUID u] ++ es ++ [closing None]).
      rewrite !app_assoc. apply last_snoc.
Qed.

(** X16. The pauses of an invocation add up to five seconds for every
    upload request after the first, 295 seconds at most. *)
Theorem pauses_add_up :
  total_pause (trace (fst (PipelineUploadCommand w)))
  = (5 * Z.of_nat (attempts (trace (fst (PipelineUploadCommand w))) - 1))%Z /\
  (total_pause (trace (fst (PipelineUploadCommand w))) <= 295)%Z.
Proof.
  destruct calm_split as
    [Hcalm | (cfg & p0 & environ & src & result & pre & u & es & res & _
                & _ & Htr & Hpre & Hloop & _)].
  - apply calm_silent in Hcalm as (-> & _ & _ & ->). cbn. lia.
  - rewrite Htr. apply calm_silent in Hpre as (Hatt & _ & _ & Hpause).
    change (NewUUID u :: es ++ [closing res]) with ([NewUUID u] ++ es ++ [closing res]).
    rewrite !total_pause_app, !attempts_app, Hatt, Hpause.
    rewrite (loop_run_pause _ _ _ _ _ Hloop).
    destruct (loop_run_results _ _ _ _ _ Hloop) as (fails & _ & _ & Hes & Hle & _).
    assert (Hclose : total_pause [@closing Doc res] = 0%Z /\
                     attempts [@closing Doc res] = 0)
      by (destruct res; split; reflexivity).
    destruct Hclose as [-> ->]. rewrite Hes.
    change (total_pause [@NewUUID Doc u]) with 0%Z.
    change (attempts [@NewUUID Doc u]) with 0. lia.
Qed.

End UploadLogs.

Lemma requests_carry_the_parsed_pipeline_witness :
  let w := Samples.flaky_server in
  let cfg := Samples.explicit_config false [] in
  let doc := "steps: [make test]" in
  let pl := {| UUID := "A-uuid"; Document := doc; ReplaceSteps := false |} in
  let p0 := fst (prepare w cfg (extend start [LoadConfig None])) in
  parsed w cfg p0 Samples.env_secret "pipeline.yml" doc /\
  UploadPipeline "job-1" pl None ∈ trace (fst (PipelineUploadCommand w)) /\
  "job-1" = Job cfg /\ Document pl = doc /\ ReplaceSteps pl = Replace cfg.
Proof.
  intros w cfg doc pl p0.
  assert (Hparsed : parsed w cfg p0 Samples.env_secret "pipeline.yml" doc)
    by (split; reflexivity).
  assert (Hin : UploadPipeline "job-1" pl None ∈ trace (fst (PipelineUploadCommand w)))
    by (apply list_elem_of_In; vm_compute; tauto).
  split; [exact Hparsed|]. split; [exact Hin|].
  exact (requests_carry_the_parsed_pipeline w cfg p0 Samples.env_secret "pipeline.yml" doc
           Hparsed "job-1" pl None Hin).
Defined.

(** ** The redaction check, once *)

Section RedactionOnce.

Context {Doc : Type} (w : World Doc).

Lemma filter_silent (f : Event Doc -> bool) (tr : list (Event Doc)) :
  forallb (fun e => negb (f e)) tr = true -> List.filter f tr = [].
Proof.
  induction tr as [|e tr IH]; [reflexivity|]. cbn.
  intros [He Htr]%andb_prop. destruct (f e); [discriminate | auto].
Qed.

Lemma checks_redaction cfg environ src result (p : Proc Doc) :
  List.filter is_redaction (trace p) = [] ->
  List.filter is_redaction (trace (fst (checks w cfg environ src result p))) = [] \/
  exists failed,
    List.filter is_redaction (trace (fst (checks w cfg environ src result p)))
    = [GetValuesToRedact (RedactedVars cfg); MarshalJSON failed].
Proof.
  intros HP. unfold checks, redaction_guard, leftover_stat_loop, check_job_and_token.
  exec. split_cases; cbn [fst trace extend];
    rewrite <- ?app_assoc, ?List.filter_app, ?HP; cbn;
    try (left; reflexivity); right; eexists; reflexivity.
Qed.

(** X17. The redaction check is made at most once in an invocation: the
    values of the configured variables are collected and the pipeline is
    serialised, in that order, once or not at all. *)
Theorem redaction_check_at_most_once cfg :
  cliconfig_Load w = inr cfg ->
  List.filter is_redaction (trace (fst (PipelineUploadCommand w))) = [] \/
  exists failed,
    List.filter is_redaction (trace (fst (PipelineUploadCommand w)))
    = [GetValuesToRedact (RedactedVars cfg); MarshalJSON failed].
Proof.
  intros Hload.
  assert (Hprep : forall cfg', emits (fun e : Event Doc => negb (is_redaction e))
                                     (prepare w cfg')) by prefix_phases.
  assert (Hdry : forall result, emits (fun e : Event Doc => negb (is_redaction e))
                                      (dry_run w result)) by prefix_phases.
  destruct (run_cases w) as
    [(err & Hl & _) | [(cfg' & p & msg & Hl & Hp & ->) |
     [(cfg' & p0 & environ & src & result & [Hl Hp] & Hd & ->) |
      [(cfg' & p0 & environ & src & result & p & msg & [Hl Hp] & Hd & Hc & ->) |
       (cfg' & p0 & environ & src & result & p1 & u & es & res & [Hl Hp] & Hd & Hc
          & -> & Hloop & _)]]]];
    unfold loaded in *; rewrite Hload in Hl; try discriminate Hl;
    inversion Hl; subst cfg';
    destruct (emits_trace _ _ (extend start [LoadConfig None]) (Hprep cfg))
      as (es0 & Htr0 & Hes0);
    rewrite Hp in Htr0; cbn [fst] in Htr0.
  - left. cbn [fst]. rewrite Htr0, List.filter_app, (filter_silent _ _ Hes0). reflexivity.
  - left. destruct (emits_trace _ _ p0 (Hdry result)) as (es1 & -> & Hes1).
    rewrite Htr0, !List.filter_app, (filter_silent _ _ Hes0), (filter_silent _ _ Hes1).
    reflexivity.
  - assert (H0 : List.filter is_redaction (trace p0) = [])
      by (rewrite Htr0, List.filter_app, (filter_silent _ _ Hes0); reflexivity).
    pose proof (checks_redaction cfg environ src result p0 H0) as H.
    rewrite Hc in H. exact H.
  - assert (H0 : List.filter is_redaction (trace p0) = [])
      by (rewrite Htr0, List.filter_app, (filter_silent _ _ Hes0); reflexivity).
    pose proof (checks_redaction cfg environ src result p0 H0) as H.
    rewrite Hc in H. cbn [fst] in H.
    assert (Hloop' : List.filter is_redaction (NewUUID u :: es ++ [closing res]) = []).
    { change (NewUUID u :: es ++ [closing res]) with ([NewUUID u] ++ es ++ [closing res]).
      rewrite !List.filter_app.
      rewrite (filter_silent is_redaction es)
        by (eapply loop_run_forall; [| | | |exact Hloop]; intros; reflexivity).
      destruct res; reflexivity. }
    rewrite List.filter_app, Hloop', app_nil_r. exact H.
Qed.

End RedactionOnce.

Lemma redaction_check_at_most_once_witness :
  cliconfig_Load Samples.guarded = inr (Samples.explicit_config false ["SECRET"]) /\
  List.filter is_redaction (trace (fst (PipelineUploadCommand Samples.guarded)))
  = [GetValuesToRedact ["SECRET"]; MarshalJSON None] /\
  (List.filter is_redaction (trace (fst (PipelineUploadCommand Samples.guarded))) = [] \/
   exists failed,
     List.filter is_redaction (trace (fst (PipelineUploadCommand Samples.guarded)))
     = [GetValuesToRedact (RedactedVars (Samples.explicit_config false ["SECRET"]));
        MarshalJSON failed]).
Proof.
  split; [reflexivity|]. split; [reflexivity|].
  exact (redaction_check_at_most_once Samples.guarded
           (Samples.explicit_config false ["SECRET"]) eq_refl).
Defined.

Lemma unrecoverable_means_422_witness :
  let tr := trace (fst (PipelineUploadCommand Samples.rejecting_server)) in
  let pl := {| UUID := "A-uuid"; Document := "steps: [make test]";
               ReplaceSteps := false |} in
  UploadPipeline "job-1" pl (Some (ErrorResponse 422 "Unprocessable Entity")) ∈ tr /\
  Log Error Unrecoverable ∈ tr.
Proof.
  intros tr pl.
  assert (Hin : UploadPipeline "job-1" pl (Some (ErrorResponse 422 "Unprocessable Entity"))
                ∈ tr) by (apply list_elem_of_In; vm_compute; tauto).
  split; [exact Hin|].
  apply (proj2 (unrecoverable_means_422 Samples.rejecting_server)).
  exists "job-1", pl, "Unprocessable Entity". exact Hin.
Defined.

Lemma success_is_logged_when_accepted_witness :
  let tr := trace (fst (PipelineUploadCommand Samples.flaky_server)) in
  let pl := {| UUID := "A-uuid"; Document := "steps: [make test]";
               ReplaceSteps := false |} in
  UploadPipeline "job-1" pl None ∈ tr /\
  Log Info UploadOk ∈ tr /\
  snd (PipelineUploadCommand Samples.flaky_server) = inr tt /\
  last tr = Some (Log Info UploadOk).
Proof.
  intros tr pl.
  assert (Hin : UploadPipeline "job-1" pl None ∈ tr)
    by (apply list_elem_of_In; vm_compute; tauto).
  destruct (success_is_logged_when_accepted Samples.flaky_server) as [Hiff Hlast].
  assert (Hlog : Log Info UploadOk ∈ tr) by (apply Hiff; exists "job-1", pl; exact Hin).
  split; [exact Hin|]. split; [exact Hlog|]. exact (Hlast Hlog).
Defined.
